(** * SAX pipeline of DS_coding_challenge.py

    A shallow embedding of the computational core of the program
    ([make_timeseries], [normalize], [reduce_PAA], [transform_to_SAX],
    [produce_SAX_data]) and of the parameter checks of the [show_hist]
    branch of its event loop.

    Number model.  Python floats are idealised: a finite float is a real
    number (type [R]), and the IEEE special values that the program can
    produce (the two infinities used as outermost bin edges, and NaN as the
    result of an undefined operation) are explicit constructors of the type
    [float] below.  Rounding and overflow are not modelled there.  Integers
    used for control (indices, frame size, alphabet size, group labels) are
    [Z], [nat] or [Q] and are executable.

    Where the outcome turns on rounding itself (whether a deviation is
    exactly zero), [normalize] is also given in double precision
    ([normalize64]), on the binary64 numbers of the standard library's
    [SpecFloat], which are executable. *)

From Stdlib Require Import String Ascii Bool List Finite Sorted ZArith QArith Qround Reals Lra Lia.
From Stdlib Require Import Floats.SpecFloat.
Import ListNotations.

(** ** Exceptions and fallible computations *)

Inductive exn : Type :=
| ZeroDivisionError
| ValueError (msg : string)
| OverflowError (msg : string).

Inductive result (A : Type) : Type :=
| Ok (a : A)
| Raise (e : exn).

Arguments Ok {A} a.
Arguments Raise {A} e.

Definition bind {A B : Type} (m : result A) (k : A -> result B) : result B :=
  match m with
  | Ok a => k a
  | Raise e => Raise e
  end.

Notation "x <- m ;; k" := (bind m (fun x => k))
  (at level 61, m at next level, right associativity).

Fixpoint mapM {A B : Type} (f : A -> result B) (l : list A) : result (list B) :=
  match l with
  | [] => Ok []
  | a :: l' => b <- f a ;; bs <- mapM f l' ;; Ok (b :: bs)
  end.

(** ** Idealised floats *)

Inductive float : Type :=
| Fin (r : R)
| PInf
| NInf
| NaN.

Local Open Scope R_scope.

(** [x - y] on floats. *)
Definition fsub (x y : float) : float :=
  match x, y with
  | NaN, _ | _, NaN => NaN
  | Fin a, Fin b => Fin (a - b)
  | Fin _, PInf => NInf
  | Fin _, NInf => PInf
  | PInf, PInf => NaN
  | PInf, _ => PInf
  | NInf, NInf => NaN
  | NInf, _ => NInf
  end.

(** [x / y] on floats, with numpy's conventions for a zero divisor (no
    exception: nonzero / 0 is an infinity, 0 / 0 is NaN).  The only divisor
    of the program is a standard deviation, a square root, whose zero is
    +0.0; the sign of a zero divisor is therefore taken as positive. *)
Definition fdiv (x y : float) : float :=
  match x, y with
  | NaN, _ | _, NaN => NaN
  | Fin a, Fin b =>
      if Req_dec_T b 0 then
        if Req_dec_T a 0 then NaN
        else if Rlt_dec 0 a then PInf else NInf
      else Fin (a / b)
  | Fin _, _ => Fin 0
  | PInf, Fin b => if Rlt_dec b 0 then NInf else PInf
  | NInf, Fin b => if Rlt_dec b 0 then PInf else NInf
  | _, _ => NaN
  end.

(** Strict order on floats; every comparison with NaN is false. *)
Definition flt (x y : float) : Prop :=
  match x, y with
  | NaN, _ | _, NaN => False
  | Fin a, Fin b => a < b
  | NInf, NInf => False
  | NInf, _ => True
  | _, NInf => False
  | PInf, _ => False
  | Fin _, PInf => True
  end.

Definition flt_dec (x y : float) : {flt x y} + {~ flt x y}.
Proof.
  destruct x as [a| | |], y as [b| | |]; simpl;
    try (left; exact I); try (right; exact (fun H => H)).
  apply Rlt_dec.
Defined.

Definition fle (x y : float) : Prop :=
  match x, y with
  | NaN, _ | _, NaN => False
  | _, _ => ~ flt y x
  end.

Definition is_nan (x : float) : bool :=
  match x with NaN => true | _ => false end.

(** ** Series *)

(** A series with the default index 0..n-1 is the list of its values. *)
Definition series := list R.

Fixpoint sum (l : list R) : R :=
  match l with
  | [] => 0
  | v :: l' => v + sum l'
  end.

(** [x.index] of a series with the default index. *)
Definition index (x : series) : list Z := map Z.of_nat (seq 0 (length x)).

(** ** reduce_PAA *)

(** [i / f] for a Python int [i]: true division, raising on a zero divisor.
    The quotient is the exact one.  The program has the double nearest to
    it, which [np.floor] sends to the same label when [f] is integral (as
    the only caller passes it); the properties below that depend on the
    labels are stated for integral frame sizes. *)
Definition truediv (i : Z) (f : Q) : result Q :=
  if Qeq_bool f 0 then Raise ZeroDivisionError else Ok (inject_Z i / f)%Q.

(** Running totals of [groupby(...).mean()]: one entry (label, (sum, count))
    per group, kept in ascending label order as [groupby] sorts its groups. *)
Fixpoint add_obs (k : Z) (v : R) (acc : list (Z * (R * nat))) : list (Z * (R * nat)) :=
  match acc with
  | [] => [(k, (v, 1%nat))]
  | (k', (s, c)) :: rest =>
      if (k <? k')%Z then (k, (v, 1%nat)) :: acc
      else if (k =? k')%Z then (k', (s + v, S c)) :: rest
      else (k', (s, c)) :: add_obs k v rest
  end.

Definition group_totals (keys : list Z) (x : series) : list (Z * (R * nat)) :=
  fold_left (fun acc kv => add_obs (fst kv) (snd kv) acc) (combine keys x) [].

(** [x.groupby(keys).mean()]: the series of group means, indexed by label. *)
Definition groupby_mean (keys : list Z) (x : series) : list (Z * R) :=
  map (fun e => (fst e, fst (snd e) / INR (snd (snd e)))) (group_totals keys x).

Definition reduce_PAA (x : series) (f : Q) : result (list (Z * R)) :=
  agg_index <- mapM (fun i => q <- truediv i f ;; Ok (Qfloor q)) (index x) ;;
  Ok (groupby_mean agg_index x).

(** The values of an indexed series, in index order. *)
Definition values (s : list (Z * R)) : series := map snd s.

(** ** normalize *)

(** [x.mean()]: NaN on an empty series. *)
Definition series_mean (x : series) : float :=
  match x with
  | [] => NaN
  | _ => Fin (sum x / INR (length x))
  end.

(** Sum of squared deviations from the average. *)
Definition sqdev (avg : R) (x : series) : R :=
  sum (map (fun v => (avg - v) * (avg - v)) x).

(** [x.std()]: sample standard deviation, one degree of freedom removed
    (ddof = 1); NaN when fewer than two observations are present. *)
Definition series_std (x : series) : float :=
  if (length x <=? 1)%nat then NaN
  else
    let avg := sum x / INR (length x) in
    Fin (sqrt (sqdev avg x / INR (length x - 1))).

Definition normalize (x : series) : list float :=
  let mean := series_mean x in
  let sd := series_std x in
  let x_new := map (fun v => fdiv (fsub (Fin v) mean) sd) x in
  x_new.

(** ** normalize in double precision *)

(** IEEE binary64: 53 bits of precision, exponents below 1024, rounding
    to nearest even. *)
Definition f64 : Type := spec_float.

Definition f64_add : f64 -> f64 -> f64 := SFadd 53 1024.
Definition f64_sub : f64 -> f64 -> f64 := SFsub 53 1024.
Definition f64_mul : f64 -> f64 -> f64 := SFmul 53 1024.
Definition f64_div : f64 -> f64 -> f64 := SFdiv 53 1024.
Definition f64_sqrt : f64 -> f64 := SFsqrt 53 1024.

(** The double nearest to a count. *)
Definition f64_of_nat (n : nat) : f64 := binary_normalize 53 1024 (Z.of_nat n) 0 false.

Definition f64_is_nan (v : f64) : bool :=
  match v with S754_nan => true | _ => false end.

(** Sum from left to right: the order in which numpy adds fewer than eight
    values, and bottleneck any number of them. *)
Definition sequential_sum (l : list f64) : f64 :=
  fold_left f64_add l (S754_zero false).

Section Double.

(** The sum of the library ([values.sum()]): pandas takes it from numpy,
    which adds longer arrays in blocks, or from bottleneck when that is
    installed; the order of the additions is theirs. *)
Variable fsum : list f64 -> f64.

(** pandas leaves NaN entries out ([skipna]): they are replaced by 0 in
    the sums and not counted. *)
Definition fill_nan (x : list f64) : list f64 :=
  map (fun v => if f64_is_nan v then S754_zero false else v) x.

Definition count_valid (x : list f64) : nat :=
  length (filter (fun v => negb (f64_is_nan v)) x).

(** [x.mean()] *)
Definition series_mean64 (x : list f64) : f64 :=
  let count := count_valid x in
  if (count =? 0)%nat then S754_nan
  else f64_div (fsum (fill_nan x)) (f64_of_nat count).

(** [x.std()]: two passes, one degree of freedom removed. *)
Definition series_std64 (x : list f64) : f64 :=
  let count := count_valid x in
  if (count <=? 1)%nat then S754_nan
  else
    let avg := f64_div (fsum (fill_nan x)) (f64_of_nat count) in
    let sqr := map (fun v => if f64_is_nan v then S754_zero false
                             else f64_mul (f64_sub avg v) (f64_sub avg v)) x in
    f64_sqrt (f64_div (fsum sqr) (f64_of_nat (count - 1))).

Definition normalize64 (x : list f64) : list f64 :=
  let mean := series_mean64 x in
  let sd := series_std64 x in
  let x_new := map (fun v => f64_div (f64_sub v mean) sd) x in
  x_new.

End Double.

(** ** transform_to_SAX *)

(** [range(lo, hi)] *)
Definition range (lo hi : Z) : list Z :=
  map (fun i => (lo + Z.of_nat i)%Z) (seq 0 (Z.to_nat (hi - lo))).

Fixpoint bin_pos (p : positive) : string :=
  match p with
  | xH => "1"
  | xO q => bin_pos q ++ "0"
  | xI q => bin_pos q ++ "1"
  end.

(** Python's [bin] *)
Definition bin (i : Z) : string :=
  match i with
  | Z0 => "0b0"
  | Zpos p => "0b" ++ bin_pos p
  | Zneg p => "-0b" ++ bin_pos p
  end.

(** The slice [s[n:]] *)
Fixpoint drop (n : nat) (s : string) : string :=
  match n, s with
  | O, _ => s
  | S n', String _ s' => drop n' s'
  | S _, EmptyString => EmptyString
  end.

Definition float_eq_dec (x y : float) : {x = y} + {x <> y}.
Proof.
  destruct x as [a| | |], y as [b| | |];
    try (left; reflexivity); try (right; discriminate).
  destruct (Req_dec_T a b) as [E|N].
  - left; rewrite E; reflexivity.
  - right; intro H; apply N; injection H; trivial.
Defined.

(** Some step of [bins] goes down ([np.diff(bins) < 0] somewhere). *)
Fixpoint descends (bins : list float) : bool :=
  match bins with
  | b0 :: ((b1 :: _) as rest) => (if flt_dec b1 b0 then true else false) || descends rest
  | _ => false
  end.

(** No value occurs twice. *)
Fixpoint unique {A : Type} (eq_dec : forall a b : A, {a = b} + {a <> b}) (l : list A) : bool :=
  match l with
  | [] => true
  | a :: l' => (if in_dec eq_dec a l' then false else true) && unique eq_dec l'
  end.

(** [bins.searchsorted(v, side='left')] on ascending [bins]: the number of
    edges below [v]. *)
Fixpoint searchsorted_left (bins : list float) (v : float) : nat :=
  match bins with
  | [] => 0
  | b :: rest => if flt_dec b v then S (searchsorted_left rest v) else 0
  end.

(** The category of one value: missing ([None]) for NaN and for a value
    outside (first edge, last edge]; otherwise the label of the bin
    (bins[ids-1], bins[ids]] it falls in. *)
Definition cut_value (bins : list float) (labels : list string) (v : float) : option string :=
  if is_nan v then None
  else
    let ids := searchsorted_left bins v in
    if ((ids =? 0) || (ids =? length bins))%nat then None
    else nth_error labels (ids - 1).

(** [pd.cut(x, bins, labels=labels)] for list-like [bins] and [labels], with the
    defaults right=True, include_lowest=False, duplicates='raise',
    ordered=True.  The message of the second error is abridged. *)
Definition cut (x : list float) (bins : list float) (labels : list string)
  : result (list (option string)) :=
  if descends bins then Raise (ValueError "bins must increase monotonically.")
  else if negb (unique float_eq_dec bins) && negb (length bins =? 2)%nat
  then Raise (ValueError "Bin edges must be unique")
  else if negb (unique string_dec labels)
  then Raise (ValueError "labels must be unique if ordered=True; pass ordered=False for duplicate labels")
  else if negb (length labels =? length bins - 1)%nat
  then Raise (ValueError "Bin labels must be one fewer than the number of bin edges")
  else Ok (map (cut_value bins labels) x).

(** Category names: binary numerals of 0 .. a-1. *)
Definition cat_names (a : Z) : list string :=
  map (fun i => drop 2 (bin i)) (range 0 a).

Definition breakpoints_0_to_1 (a : Z) : list R :=
  map (fun i => IZR i / IZR a) (range 1 a).

(** ** scipy's linear filter *)

Fixpoint dot (c h : list R) : R :=
  match c, h with
  | c0 :: c', h0 :: h' => c0 * h0 + dot c' h'
  | _, _ => 0
  end.

(** [xh] and [yh]: the inputs and outputs already seen, newest first; what
    lies before the start of the signal counts as zero. *)
Fixpoint lfilter_from (b a : list R) (xh yh : list R) (x : list R) : list R :=
  match x with
  | [] => []
  | xn :: x' =>
      let yn := (dot b (xn :: xh) - dot (tl a) yh) / hd 1 a in
      yn :: lfilter_from b a (xn :: xh) (yn :: yh) x'
  end.

(** [signal.lfilter(b, a, x)] *)
Definition lfilter (b a : list R) (x : list R) : list R := lfilter_from b a [] [] x.

Section Program.

(** The parts of numpy and scipy that the program only calls: the global
    random generator ([np.random.seed] replaces its state, whatever it
    was; [np.random.standard_normal(size)] draws from it and advances it)
    and the quantile function [norm.ppf] of the standard normal law. *)
Variable rng : Type.
Variable seed : Z -> rng.
Variable standard_normal : nat -> rng -> list R * rng.
Variable ppf : R -> R.

Definition breakpoints (a : Z) : list R := map ppf (breakpoints_0_to_1 a).

Definition transform_to_SAX (x : list float) (a : Z) : result (list (option string)) :=
  let bins := [NInf] ++ map Fin (breakpoints a) ++ [PInf] in
  x_transformed <- cut x bins (cat_names a) ;;
  Ok x_transformed.

(** [ArmaProcess(ar, ma).generate_sample(nsample)] with the default scale 1
    and no burn-in. *)
Definition generate_sample (ar ma : list R) (nsample : nat) (g : rng) : series * rng :=
  let (eta, g') := standard_normal nsample g in
  (lfilter ma ar eta, g').

(** The global generator is threaded through: [g] is its state on entry. *)
Definition make_timeseries (g : rng) : (series * nat) * rng :=
  let g0 := seed 12345 in
  let n := 100%nat in
  let ar1 := [1; - 0.0] in
  let ma1 := [1; 0.5] in
  let (x, g1) := generate_sample ar1 ma1 n g0 in
  ((x, n), g1).

Definition produce_SAX_data (f : Q) (a : Z) (g : rng)
  : result (series * list (option string) * nat) * rng :=
  let '((x, n), g1) := make_timeseries g in
  (x_agg <- reduce_PAA x f ;;
   let x_agg_norm := normalize (values x_agg) in
   x_SAX <- transform_to_SAX x_agg_norm a ;;
   Ok (x, x_SAX, n),
   g1).

(** *** The [show_hist] branch of the event loop *)

Inductive outcome : Type :=
| Break (popup : string)                    (* error popup, then the loop is left *)
| Drawn (x_SAX : list (option string))      (* histogram of [x_SAX] drawn *)
| Uncaught (e : exn).

(** [int(v)] for a float [v]: truncation toward zero. *)
Definition int_of (v : Q) : Z := Z.quot (Qnum v) (Zpos (Qden v)).

(** [v < 1 or v > n or v != int(v)] on a finite [v], for which nothing
    raises. *)
Definition out_of_bounds (v : Q) (n : nat) : bool :=
  negb (Qle_bool 1 v) || negb (Qle_bool v (inject_Z (Z.of_nat n)))
  || negb (Qeq_bool v (inject_Z (int_of v))).

(** What [float(text)] returns when it does not raise: a finite number, an
    infinity ("inf", "1e400") or NaN ("nan"). *)
Inductive pyfloat : Type :=
| finite (q : Q)
| pos_inf
| neg_inf
| nan.

(** [v < c] and [v > c] for a float [v] and an int [c]; NaN compares false. *)
Definition py_lt (v : pyfloat) (c : Z) : bool :=
  match v with
  | finite q => negb (Qle_bool (inject_Z c) q)
  | neg_inf => true
  | pos_inf | nan => false
  end.

Definition py_gt (v : pyfloat) (c : Z) : bool :=
  match v with
  | finite q => negb (Qle_bool q (inject_Z c))
  | pos_inf => true
  | neg_inf | nan => false
  end.

(** [v != k] for a float [v] and an int [k] *)
Definition py_ne (v : pyfloat) (k : Z) : bool :=
  match v with
  | finite q => negb (Qeq_bool q (inject_Z k))
  | pos_inf | neg_inf | nan => true
  end.

(** [int(v)] *)
Definition py_int (v : pyfloat) : result Z :=
  match v with
  | finite q => Ok (int_of q)
  | pos_inf | neg_inf => Raise (OverflowError "cannot convert float infinity to integer")
  | nan => Raise (ValueError "cannot convert float NaN to integer")
  end.

(** [v < 1 or v > n or v != int(v)], evaluated from left to right: [int(v)]
    is reached, and can raise, only when both comparisons are false. *)
Definition out_of_range (v : pyfloat) (n : nat) : result bool :=
  if py_lt v 1 then Ok true
  else if py_gt v (Z.of_nat n) then Ok true
  else k <- py_int v ;; Ok (py_ne v k).

(** [edit_f] and [edit_a]: the two text fields as [float(...)] reads them,
    [None] when it raises.  The two checks stand outside the [try] blocks,
    so what they raise is not caught. *)
Definition show_hist (edit_f edit_a : option pyfloat) (g : rng) : outcome * rng :=
  let '((_, n), g1) := make_timeseries g in
  match edit_f with
  | None => (Break "Please enter frame size", g1)
  | Some f =>
      match out_of_range f n with
      | Raise e => (Uncaught e, g1)
      | Ok true => (Break "Frame size has to be an integer between 1 and n.", g1)
      | Ok false =>
          match edit_a with
          | None => (Break "Please enter frame size", g1)
          | Some a =>
              match out_of_range a n with
              | Raise e => (Uncaught e, g1)
              | Ok true => (Break "Alphabet size has to be an integer between 1 and n.", g1)
              | Ok false =>
                  match py_int f, py_int a with
                  | Ok int_f, Ok int_a =>
                      let (r, g2) := produce_SAX_data (inject_Z int_f) int_a g1 in
                      match r with
                      | Ok (_, x_SAX, _) => (Drawn x_SAX, g2)
                      | Raise e => (Uncaught e, g2)
                      end
                  | Raise e, _ => (Uncaught e, g1)
                  | Ok _, Raise e => (Uncaught e, g1)
                  end
              end
          end
      end
  end.

End Program.

Arguments generate_sample {rng} standard_normal ar ma nsample g.
Arguments make_timeseries {rng} seed standard_normal g.
Arguments produce_SAX_data {rng} seed standard_normal ppf f a g.
Arguments show_hist {rng} seed standard_normal ppf edit_f edit_a g.

(** ** Reference notions used in the statements *)

(** Arithmetic mean of a non-empty list. *)
Definition mean (l : list R) : R := sum l / INR (length l).

(** The slice [x[k*f : (k+1)*f]] (which stops at the end of [x]). *)
Definition window (x : series) (f k : nat) : list R := firstn f (skipn (k * f) x).

(** The slice [x[lo:hi]] *)
Definition slice (x : series) (lo hi : nat) : list R := firstn (hi - lo) (skipn lo x).

(** Label, sum and count of the [k]-th window. *)
Definition window_total (x : series) (f k : nat) : Z * (R * nat) :=
  (Z.of_nat k, (sum (window x f k), length (window x f k))).

(** An entry of the running totals has a label below [k]. *)
Definition key_lt (k : Z) (e : Z * (R * nat)) : Prop := (fst e < k)%Z.

(** ceil(n / f) *)
Definition ceil_div (n f : nat) : nat := ((n + f - 1) / f)%nat.



(** The bin edges of [transform_to_SAX], and the [i]-th of them. *)
Definition bin_edges (ppf : R -> R) (a : Z) : list float :=
  [NInf] ++ map Fin (breakpoints ppf a) ++ [PInf].

Definition edge (ppf : R -> R) (a : Z) (i : nat) : float := nth i (bin_edges ppf a) NaN.

(** The name of the [i]-th category. *)
Definition symbol (i : nat) : string := drop 2 (bin (Z.of_nat i)).

(** [ppf] is strictly increasing on the open unit interval, as the quantile
    function of the standard normal law is. *)
Definition increasing_on_unit (ppf : R -> R) : Prop :=
  forall p q : R, 0 < p -> p < q -> q < 1 -> ppf p < ppf q.

(** A parameter value that the checks of [show_hist] are meant to refuse:
    not an integer of [1, n]. *)
Definition invalid (v : Q) (n : nat) : Prop :=
  ~ exists k : Z, (1 <= k <= Z.of_nat n)%Z /\ (v == inject_Z k)%Q.

(** ** The figure on display and the event loop *)

(** The two plots of the program: the line plot of the series and the
    histogram of the categories. *)
Inductive figure : Type :=
| lineplot (x : series)
| histplot (data : list (option string)).

(** A canvas object ([FigureCanvasTkAgg]).  Objects are numbered in the
    order in which the program creates them. *)
Definition canvas : Type := nat.

(** The calls the program makes on the toolkit, in the order it makes
    them. *)
Inductive call : Type :=
| popup_error (msg : string)
| new_canvas (c : canvas) (fig : figure)   (* [FigureCanvasTkAgg(figure, ...)] gives [c] *)
| draw (c : canvas)                        (* [c.draw()] *)
| pack (c : canvas)                        (* [c.get_tk_widget().pack(...)] *)
| forget (c : canvas)                      (* [c.get_tk_widget().forget()] *)
| close_all                                (* [plt.close('all')] *)
| window_close.

(** [draw_figure(canvas, figure)]; [c] is the object it creates and
    returns. *)
Definition draw_figure (fig : figure) (c : canvas) : list call * canvas :=
  ([new_canvas c fig; draw c; pack c], c).

(** [delete_fig_agg(fig_agg)] *)
Definition delete_fig_agg (fig_agg : canvas) : list call :=
  [forget fig_agg; close_all].

(** [make_figure(window, figure)].  [fig_agg] is the global of that name,
    read on entry and returned as left on exit; [next] is the number of the
    next object to be created, returned advanced by the two canvases made
    here. *)
Definition make_figure (fig : figure) (next : canvas) (fig_agg : option canvas)
  : list call * (canvas * option canvas) :=
  let dropped := match fig_agg with
                 | Some old => delete_fig_agg old
                 | None => []
                 end in
  let (drawing, fig_agg1) := draw_figure fig next in
  let figure_canvas := S next in
  (dropped ++ drawing ++ [new_canvas figure_canvas fig; pack figure_canvas],
   (S (S next), Some fig_agg1)).

(** What [window.read()] returns: the event, and for [show_hist] the two
    text fields as [float(...)] reads them. *)
Inductive event : Type :=
| WIN_CLOSED
| Exit
| show_time_event
| show_hist_event (edit_f edit_a : option pyfloat).

(** How one turn of the loop ends. *)
Inductive turn (St : Type) : Type :=
| Continue (st : St)
| Leave
| Raised (e : exn).

Arguments Continue {St} st.
Arguments Leave {St}.
Arguments Raised {St} e.

Section EventLoop.

Variable rng : Type.
Variable seed : Z -> rng.
Variable standard_normal : nat -> rng -> list R * rng.
Variable ppf : R -> R.

(** The state carried from turn to turn: the random generator, the number
    of the next object, and the global [fig_agg]. *)
Definition loop_state : Type := (rng * (canvas * option canvas))%type.

(** One turn of [while True], after [window.read()] has returned [ev]. *)
Definition loop_turn (ev : event) (st : loop_state) : list call * turn loop_state :=
  let '(g, (next, fig_agg)) := st in
  match ev with
  | WIN_CLOSED | Exit => ([], Leave)
  | show_time_event =>
      let '((x, _), g1) := make_timeseries seed standard_normal g in
      let (calls, objects) := make_figure (lineplot x) next fig_agg in
      (calls, Continue (g1, objects))
  | show_hist_event edit_f edit_a =>
      let (o, g1) := show_hist seed standard_normal ppf edit_f edit_a g in
      match o with
      | Break popup => ([popup_error popup], Leave)
      | Drawn x_SAX =>
          let (calls, objects) := make_figure (histplot x_SAX) next fig_agg in
          (calls, Continue (g1, objects))
      | Uncaught e => ([], Raised e)
      end
  end.

(** The loop over the events that arrive, and [window.close()] once it is
    left.  [None]: the events given are used up and the loop waits in
    [window.read()]; [Some None]: the program has ended; [Some (Some e)]: it
    has stopped on the exception [e]. *)
Fixpoint event_loop (evs : list event) (st : loop_state)
  : list call * (loop_state + option exn) :=
  match evs with
  | [] => ([], inl st)
  | ev :: evs' =>
      match loop_turn ev st with
      | (calls, Continue st') =>
          let (calls', r) := event_loop evs' st' in (calls ++ calls', r)
      | (calls, Leave) => (calls ++ [window_close], inr None)
      | (calls, Raised e) => (calls, inr (Some e))
      end
  end.

(** The program from its start: no canvas yet, [fig_agg = None]. *)
Definition main (evs : list event) (g : rng) : list call * (loop_state + option exn) :=
  event_loop evs (g, (O, None)).

End EventLoop.

Arguments loop_turn {rng} seed standard_normal ppf ev st.
Arguments event_loop {rng} seed standard_normal ppf evs st.
Arguments main {rng} seed standard_normal ppf evs g.

(** ** Further reference notions *)

(** The labels that [reduce_PAA] gives the indices of [x]. *)
Definition labels (x : series) (f : Q) : list Z :=
  map (fun i => Qfloor (inject_Z i / f)) (index x).





(** First-order moving average of the noise [e]: each value is the noise
    of its period plus [c] times the noise of the period before ([prev]
    before the first). *)
Fixpoint moving_average (c prev : R) (e : list R) : list R :=
  match e with
  | [] => []
  | et :: e' => (et + c * prev) :: moving_average c et e'
  end.

(** The number a string of binary digits denotes ([int(s, 2)]). *)
Fixpoint int_base2_from (acc : N) (s : string) : N :=
  match s with
  | EmptyString => acc
  | String c s' =>
      int_base2_from (2 * acc + (if Ascii.eqb c "1" then 1 else 0))%N s'
  end.

Definition int_base2 (s : string) : N := int_base2_from 0 s.

(** A double that is a zero or NaN. *)
Definition zero_or_nan (v : f64) : Prop :=
  match v with
  | S754_zero _ | S754_nan => True
  | S754_infinity _ | S754_finite _ _ _ => False
  end.

(** A sum of zeros and NaNs is a zero or NaN, in whatever order it is
    added. *)
Definition sums_zeros (fsum : list f64 -> f64) : Prop :=
  forall l, Forall zero_or_nan l -> zero_or_nan (fsum l).

(** The doubles 0.1 (0x3FB999999999999A), 1.0 and 0.1 * 2^-600 (about
    2.4e-182). *)
Definition f64_tenth : f64 := S754_finite false 7205759403792794 (-56).
Definition f64_one : f64 := S754_finite false 4503599627370496 (-52).
Definition f64_tenth_small : f64 := S754_finite false 7205759403792794 (-656).

(** A text field that reads as an integer of [1, n]. *)
Definition reads_integer (v : pyfloat) (n : nat) : Prop :=
  exists (q : Q) (k : Z),
    v = finite q /\ (1 <= k <= Z.of_nat n)%Z /\ (q == inject_Z k)%Q.

(** Both fields read as integers of [1, 100]. *)
Definition fields_valid (edit_f edit_a : option pyfloat) : Prop :=
  exists f a, edit_f = Some f /\ edit_a = Some a
              /\ reads_integer f 100 /\ reads_integer a 100.

(** A field that reads as NaN is reached by the checks: the frame size
    field, or the alphabet size field behind a valid frame size. *)
Definition fields_nan (edit_f edit_a : option pyfloat) : Prop :=
  edit_f = Some nan
  \/ exists f, edit_f = Some f /\ reads_integer f 100 /\ edit_a = Some nan.

(** The events on which the loop goes on, on which an exception escapes,
    and on which the loop is left. *)
Definition goes_on (ev : event) : Prop :=
  match ev with
  | show_time_event => True
  | show_hist_event edit_f edit_a => fields_valid edit_f edit_a
  | WIN_CLOSED | Exit => False
  end.

Definition raises (ev : event) : Prop :=
  match ev with
  | show_hist_event edit_f edit_a => fields_nan edit_f edit_a
  | WIN_CLOSED | Exit | show_time_event => False
  end.

Definition leaves (ev : event) : Prop := ~ goes_on ev /\ ~ raises ev.

(** The canvases that are packed and not forgotten since, in the order of
    their packing, once [calls] have been made on a window showing
    [shown]. *)
Fixpoint packed_after (shown : list canvas) (calls : list call) : list canvas :=
  match calls with
  | [] => shown
  | pack c :: rest => packed_after (shown ++ [c]) rest
  | forget c :: rest => packed_after (remove Nat.eq_dec c shown) rest
  | _ :: rest => packed_after shown rest
  end.

(** The number of figures drawn. *)
Definition displays (calls : list call) : nat :=
  length (filter (fun c => match c with draw _ => true | _ => false end) calls).

(** The canvas held in [fig_agg] after [n] displays: the first of the two
    made by the last display. *)
Definition held (n : nat) : option canvas :=
  match n with
  | O => None
  | S k => Some (2 * k)%nat
  end.

(** The canvases left packed after [n] displays: the second canvas of
    every display, and the first canvas of the last one. *)
Definition left_packed (n : nat) : list canvas :=
  match n with
  | O => []
  | S k => map (fun j => 2 * j + 1)%nat (seq 0 k) ++ [2 * k; 2 * k + 1]%nat
  end.

(** ** A small instance of the environment, to run the definitions on *)

Module Example.

Definition rng : Type := nat.
Definition seed (s : Z) : rng := O.
Definition standard_normal (size : nat) (g : rng) : list R * rng :=
  (map (fun i => IZR (Z.of_nat (g + i))) (seq 0 size), (g + size)%nat).
Definition ppf (p : R) : R := 2 * p - 1.

End Example.

(** * Properties *)

(** ** Aggregation *)

Section Aggregation.

Local Open Scope nat_scope.

Lemma ceil_div_succ n f : 0 < f -> ceil_div (S n) f = n / f + 1.
Proof.
  intros Hf. unfold ceil_div.
  replace (S n + f - 1) with (n + 1 * f) by lia.
  rewrite Nat.div_add by lia. reflexivity.
Qed.

Lemma ceil_div_cases n f :
  0 < f -> ceil_div n f = if n mod f =? 0 then n / f else n / f + 1.
Proof.
  intros Hf. unfold ceil_div.
  pose proof (Nat.div_mod_eq n f) as E.
  pose proof (Nat.mod_upper_bound n f ltac:(lia)) as B.
  destruct (Nat.eqb_spec (n mod f) 0) as [Z0|NZ].
  - symmetry. apply (Nat.div_unique _ _ _ (f - 1)); [lia|]. nia.
  - symmetry. apply (Nat.div_unique _ _ _ (n mod f - 1)); [lia|]. nia.
Qed.

Lemma sum_app l1 l2 : (sum (l1 ++ l2) = sum l1 + sum l2)%R.
Proof. induction l1 as [|a l1 IH]; simpl; [lra | rewrite IH; lra]. Qed.

Lemma add_obs_above k v acc :
  Forall (key_lt k) acc -> add_obs k v acc = acc ++ [(k, (v, 1))].
Proof.
  induction 1 as [|[k' [s c]] rest Hk _ IH]; simpl; [reflexivity|].
  unfold key_lt in Hk; simpl in Hk.
  destruct (Z.ltb_spec k k'); [lia|].
  destruct (Z.eqb_spec k k'); [lia|].
  rewrite IH; reflexivity.
Qed.

Lemma add_obs_last k v pre s c :
  Forall (key_lt k) pre ->
  add_obs k v (pre ++ [(k, (s, c))]) = pre ++ [(k, ((s + v)%R, S c))].
Proof.
  induction 1 as [|[k' [s' c']] rest Hk _ IH]; simpl.
  - rewrite Z.ltb_irrefl, Z.eqb_refl. reflexivity.
  - unfold key_lt in Hk; simpl in Hk.
    destruct (Z.ltb_spec k k'); [lia|].
    destruct (Z.eqb_spec k k'); [lia|].
    rewrite IH; reflexivity.
Qed.

Lemma window_app_full x v f k :
  (k + 1) * f <= length x -> window (x ++ [v]) f k = window x f k.
Proof.
  intros H. unfold window.
  rewrite skipn_app, firstn_app, length_skipn.
  replace (f - (length x - k * f)) with 0 by lia.
  rewrite firstn_O, app_nil_r. reflexivity.
Qed.

Lemma window_app_last x v f k :
  k * f <= length x < (k + 1) * f ->
  window (x ++ [v]) f k = window x f k ++ [v].
Proof.
  intros H. unfold window.
  rewrite skipn_app, firstn_app, length_skipn.
  replace (k * f - length x) with 0 by lia. rewrite skipn_O.
  destruct (f - (length x - k * f)) eqn:E; [lia|].
  simpl. rewrite firstn_nil. reflexivity.
Qed.

Lemma combine_snoc {A B : Type} (l1 : list A) (l2 : list B) a b :
  length l1 = length l2 ->
  combine (l1 ++ [a]) (l2 ++ [b]) = combine l1 l2 ++ [(a, b)].
Proof.
  revert l2. induction l1 as [|a1 l1 IH]; intros [|b1 l2] H; simpl in *;
    try discriminate; [reflexivity|].
  rewrite IH by lia. reflexivity.
Qed.

Lemma window_totals_below x f q :
  Forall (key_lt (Z.of_nat q)) (map (window_total x f) (seq 0 q)).
Proof.
  apply Forall_forall. intros e He. apply in_map_iff in He.
  destruct He as [k [<- Hk]]. apply in_seq in Hk.
  unfold key_lt; simpl. lia.
Qed.

Lemma window_totals_prefix x v f q :
  q * f <= length x ->
  map (window_total (x ++ [v]) f) (seq 0 q) = map (window_total x f) (seq 0 q).
Proof.
  intros H. apply map_ext_in. intros k Hk. apply in_seq in Hk.
  unfold window_total. rewrite window_app_full by nia. reflexivity.
Qed.

(** The running totals of the labels [i // f] are the totals of the
    consecutive windows of width [f]. *)
Lemma group_totals_windows x f :
  0 < f ->
  group_totals (map (fun i => Z.of_nat (i / f)) (seq 0 (length x))) x
  = map (window_total x f) (seq 0 (ceil_div (length x) f)).
Proof.
  intros Hf. induction x as [|v x IH] using rev_ind.
  - simpl. unfold ceil_div. simpl. rewrite Nat.div_small by lia. reflexivity.
  - unfold group_totals in *.
    rewrite length_app; simpl length. rewrite Nat.add_1_r, seq_S, map_app; simpl.
    rewrite combine_snoc by (rewrite length_map, length_seq; reflexivity).
    rewrite fold_left_app; simpl. rewrite IH. clear IH.
    rewrite ceil_div_succ by assumption.
    rewrite ceil_div_cases by assumption.
    set (m := length x). set (q := m / f).
    pose proof (Nat.div_mod_eq m f) as E.
    pose proof (Nat.mod_upper_bound m f ltac:(lia)) as B.
    fold q in E.
    replace (q + 1) with (S q) by lia.
    rewrite (seq_S q 0), (map_app _ (seq 0 q)); simpl.
    destruct (Nat.eqb_spec (m mod f) 0) as [Z0|NZ].
    + rewrite add_obs_above by apply window_totals_below.
      rewrite window_totals_prefix by (fold m; nia).
      f_equal. unfold window_total.
      rewrite window_app_last by (fold m; nia).
      unfold window. rewrite skipn_all2 by (fold m; nia).
      rewrite firstn_nil. simpl. do 3 f_equal. lra.
    + rewrite (seq_S q 0), (map_app _ (seq 0 q)); simpl.
      unfold window_total at 2.
      rewrite add_obs_last by apply window_totals_below.
      rewrite window_totals_prefix by (fold m; nia).
      f_equal. unfold window_total.
      rewrite window_app_last by (fold m; nia).
      rewrite sum_app, length_app. simpl.
      rewrite Nat.add_1_r. do 3 f_equal. lra.
Qed.

(** [ceil_div n f] is the ceiling of n / f: the least [c] with n <= c * f. *)
Lemma ceil_div_least n f c : 0 < f -> (n <= c * f <-> ceil_div n f <= c).
Proof.
  intros Hf. rewrite ceil_div_cases by assumption.
  pose proof (Nat.div_mod_eq n f) as E.
  pose proof (Nat.mod_upper_bound n f ltac:(lia)) as B.
  destruct (Nat.eqb_spec (n mod f) 0); split; intros H; nia.
Qed.

Lemma window_slice x f k :
  window x f k = slice x (k * f) (Nat.min ((k + 1) * f) (length x)).
Proof.
  unfold window, slice.
  destruct (Nat.le_gt_cases ((k + 1) * f) (length x)) as [H|H].
  - f_equal. lia.
  - rewrite !firstn_all2; try reflexivity; rewrite length_skipn; lia.
Qed.

(** The labels computed by the list comprehension of [reduce_PAA]. *)
Lemma agg_index_div (f : nat) (l : list nat) :
  0 < f ->
  mapM (fun i => q <- truediv i (inject_Z (Z.of_nat f)) ;; Ok (Qfloor q)) (map Z.of_nat l)
  = Ok (map (fun i => Z.of_nat (i / f)) l).
Proof.
  intros Hf. induction l as [|i l IH]; cbn [mapM map bind]; [reflexivity|].
  rewrite IH. unfold truediv.
  destruct (Qeq_bool (inject_Z (Z.of_nat f)) 0) eqn:E.
  - apply Qeq_bool_eq in E. unfold Qeq in E; simpl in E. lia.
  - cbn [bind]. rewrite <- Zdiv_Qdiv, Nat2Z.inj_div. reflexivity.
Qed.

(** [reduce_PAA] with an integral frame size [f >= 1]: one group per
    window, in window order, holding the mean of the window. *)
Lemma reduce_PAA_windows (x : series) (f : nat) :
  0 < f ->
  reduce_PAA x (inject_Z (Z.of_nat f))
  = Ok (map (fun k => (Z.of_nat k, mean (window x f k))) (seq 0 (ceil_div (length x) f))).
Proof.
  intros Hf. unfold reduce_PAA, index.
  rewrite agg_index_div by assumption. simpl.
  unfold groupby_mean. rewrite group_totals_windows by assumption.
  rewrite map_map. reflexivity.
Qed.

Lemma windows_of_width_one (x : series) (s : nat) :
  map (fun k => (Z.of_nat (s + k), mean (window x 1 k))) (seq 0 (length x))
  = combine (map Z.of_nat (seq s (length x))) x.
Proof.
  revert s. induction x as [|a x IH]; intros s; [reflexivity|].
  cbn [length seq map combine]. f_equal.
  - rewrite Nat.add_0_r. f_equal. unfold mean, window. simpl. lra.
  - rewrite <- seq_shift, map_map, <- IH.
    apply map_ext. intros k. rewrite Nat.add_succ_r. reflexivity.
Qed.

(** C2.  For a series of length n and an integral frame size f with
    1 <= f <= n, [reduce_PAA] returns a series of length ceil(n / f) whose
    k-th element (labelled k) is the arithmetic mean of the slice
    x[k*f : min((k+1)*f, n)]. *)
Theorem reduce_PAA_window_means (x : series) (f : nat) (Hf : 1 <= f <= length x) :
  exists agg,
    reduce_PAA x (inject_Z (Z.of_nat f)) = Ok agg
    /\ length agg = ceil_div (length x) f
    /\ forall k, k < ceil_div (length x) f ->
         nth_error agg k
         = Some (Z.of_nat k, mean (slice x (k * f) (Nat.min ((k + 1) * f) (length x)))).
Proof.
  eexists. split; [apply reduce_PAA_windows; lia|]. split.
  - rewrite length_map, length_seq. reflexivity.
  - intros k Hk. rewrite nth_error_map, nth_error_seq.
    destruct (Nat.ltb_spec k (ceil_div (length x) f)); [|lia].
    simpl. rewrite window_slice. reflexivity.
Qed.

(** The instance of the specification: [1..10] with frame size 3. *)
Lemma reduce_PAA_window_means_example :
  exists agg,
    reduce_PAA [1; 2; 3; 4; 5; 6; 7; 8; 9; 10]%R 3 = Ok agg
    /\ values agg = [2; 5; 8; 10]%R.
Proof.
  destruct (reduce_PAA_window_means [1; 2; 3; 4; 5; 6; 7; 8; 9; 10]%R 3)
    as [agg [E [L N]]]; [simpl; lia|].
  exists agg. split; [exact E|].
  change (ceil_div _ _) with 4 in L, N.
  pose proof (N 0 ltac:(lia)) as N0. pose proof (N 1 ltac:(lia)) as N1.
  pose proof (N 2 ltac:(lia)) as N2. pose proof (N 3 ltac:(lia)) as N3.
  destruct agg as [|e0 [|e1 [|e2 [|e3 [|e4 agg]]]]]; try discriminate L.
  simpl in N0, N1, N2, N3.
  injection N0 as ->. injection N1 as ->. injection N2 as ->. injection N3 as ->.
  unfold values, mean; simpl. repeat f_equal; lra.
Defined.

(** C10.  With frame size 1 the aggregation returns the input series,
    element by element and in the same order. *)
Theorem reduce_PAA_one (x : series) :
  reduce_PAA x 1 = Ok (combine (index x) x)
  /\ values (combine (index x) x) = x.
Proof.
  split.
  - change 1%Q with (inject_Z (Z.of_nat 1)).
    rewrite reduce_PAA_windows by lia. f_equal.
    replace (ceil_div (length x) 1) with (length x).
    + apply (windows_of_width_one x 0).
    + unfold ceil_div. rewrite Nat.div_1_r. lia.
  - unfold values, index.
    assert (G : forall (l : list Z) (y : list R), length l = length y -> map snd (combine l y) = y).
    { induction l as [|a l IH]; intros [|b y] H; simpl in *; try discriminate; [reflexivity|].
      rewrite IH by lia. reflexivity. }
    apply G. rewrite length_map, length_seq. reflexivity.
Qed.

End Aggregation.

(** ** Normalisation *)

Section Normalisation.

















End Normalisation.


(** ** Category names *)

Section CategoryNames.

Local Open Scope string_scope.

Lemma snoc_inj (s1 s2 : string) (c1 c2 : ascii) :
  s1 ++ String c1 "" = s2 ++ String c2 "" -> s1 = s2 /\ c1 = c2.
Proof.
  revert s2. induction s1 as [|d1 s1 IH]; intros [|d2 s2] H; simpl in H.
  - injection H as ->. split; reflexivity.
  - injection H as _ H. destruct s2; discriminate H.
  - injection H as _ H. destruct s1; discriminate H.
  - injection H as -> H. destruct (IH _ H) as [-> ->]. split; reflexivity.
Qed.

Lemma bin_pos_head (p : positive) : exists s, bin_pos p = String "1" s.
Proof.
  induction p as [p [s IH]|p [s IH]|]; simpl.
  - rewrite IH. eexists. reflexivity.
  - rewrite IH. eexists. reflexivity.
  - eexists. reflexivity.
Qed.

Lemma bin_pos_inj (p q : positive) : bin_pos p = bin_pos q -> p = q.
Proof.
  revert q. induction p as [p IH|p IH|]; intros [q|q|] H; simpl in H;
    try reflexivity;
    try (apply snoc_inj in H; destruct H as [H C]; try discriminate C;
         f_equal; apply IH; exact H).
  - destruct (bin_pos_head p) as [s E]. rewrite E in H. simpl in H.
    injection H as H. destruct s; discriminate H.
  - destruct (bin_pos_head p) as [s E]. rewrite E in H. simpl in H.
    injection H as H. destruct s; discriminate H.
  - destruct (bin_pos_head q) as [s E]. rewrite E in H. simpl in H.
    injection H as H. destruct s; discriminate H.
  - destruct (bin_pos_head q) as [s E]. rewrite E in H. simpl in H.
    injection H as H. destruct s; discriminate H.
Qed.

Lemma symbol_inj (i j : nat) : symbol i = symbol j -> i = j.
Proof.
  unfold symbol. intros H. apply Nat2Z.inj.
  destruct (Z.of_nat i) as [|p|p] eqn:Ei, (Z.of_nat j) as [|q|q] eqn:Ej;
    try lia; simpl in H; try reflexivity.
  - destruct (bin_pos_head q) as [s E]. rewrite E in H. discriminate H.
  - destruct (bin_pos_head p) as [s E]. rewrite E in H. discriminate H.
  - f_equal. apply bin_pos_inj. exact H.
Qed.

Lemma range_0 (a : Z) : range 0 a = map Z.of_nat (seq 0 (Z.to_nat a)).
Proof. unfold range. rewrite Z.sub_0_r. reflexivity. Qed.

Lemma cat_names_symbols (a : Z) : cat_names a = map symbol (seq 0 (Z.to_nat a)).
Proof. unfold cat_names. rewrite range_0, map_map. reflexivity. Qed.

Lemma cat_names_length (a : Z) : length (cat_names a) = Z.to_nat a.
Proof. rewrite cat_names_symbols, length_map, length_seq. reflexivity. Qed.

Lemma cat_names_nth (a : Z) (i : nat) :
  (i < Z.to_nat a)%nat -> nth_error (cat_names a) i = Some (symbol i).
Proof.
  intros H. rewrite cat_names_symbols, nth_error_map, nth_error_seq.
  destruct (Nat.ltb_spec i (Z.to_nat a)); [reflexivity | lia].
Qed.

Lemma cat_names_NoDup (a : Z) : NoDup (cat_names a).
Proof.
  rewrite cat_names_symbols. apply Injective_map_NoDup.
  - intros i j. apply symbol_inj.
  - apply seq_NoDup.
Qed.

Lemma unique_NoDup {A : Type} (eq_dec : forall a b : A, {a = b} + {a <> b}) (l : list A) :
  NoDup l -> unique eq_dec l = true.
Proof.
  induction 1 as [|a l Hn _ IH]; simpl; [reflexivity|].
  destruct (in_dec eq_dec a l); [contradiction | exact IH].
Qed.

End CategoryNames.

(** ** Binning *)

Section Binning.

Lemma flt_trans (x y z : float) : flt x y -> flt y z -> flt x z.
Proof.
  destruct x, y, z; simpl; try tauto. apply Rlt_trans.
Qed.

Lemma flt_irrefl (x : float) : ~ flt x x.
Proof. destruct x; simpl; try tauto. apply Rlt_irrefl. Qed.

Lemma flt_asym (x y : float) : flt x y -> ~ flt y x.
Proof. intros H1 H2. exact (flt_irrefl x (flt_trans _ _ _ H1 H2)). Qed.

Lemma fle_not_flt (v : R) (y : float) : y <> NaN -> (fle (Fin v) y <-> ~ flt y (Fin v)).
Proof. destruct y; simpl; tauto. Qed.

Lemma descends_sorted (bins : list float) : StronglySorted flt bins -> descends bins = false.
Proof.
  induction 1 as [|b rest Hs IH F]; [reflexivity|].
  destruct rest as [|b1 rest]; [reflexivity|].
  change (descends (b :: b1 :: rest))
    with ((if flt_dec b1 b then true else false) || descends (b1 :: rest))%bool.
  rewrite IH.
  inversion F as [|? ? Hb _]; subst.
  destruct (flt_dec b1 b) as [D|_]; [|reflexivity].
  exfalso. exact (flt_asym _ _ Hb D).
Qed.

Lemma NoDup_sorted (bins : list float) : StronglySorted flt bins -> NoDup bins.
Proof.
  induction 1 as [|b rest Hs IH F]; constructor; [|exact IH].
  intro I. rewrite Forall_forall in F. exact (flt_irrefl b (F b I)).
Qed.

(** On ascending edges, [searchsorted_left] returns [S i] exactly for the
    values above edge [i] and not above edge [S i]. *)
Lemma searchsorted_left_spec (bins : list float) (v : float) (i : nat) :
  StronglySorted flt bins ->
  (S i < length bins)%nat ->
  (searchsorted_left bins v = S i
   <-> flt (nth i bins NaN) v /\ ~ flt (nth (S i) bins NaN) v).
Proof.
  intros Hs. revert i. induction Hs as [|b rest Hs IH F]; intros i L.
  - simpl in L. lia.
  - cbn [searchsorted_left]. simpl in L.
    destruct i as [|i].
    + destruct rest as [|b1 rest]; [simpl in L; lia|].
      cbn [nth searchsorted_left].
      destruct (flt_dec b v) as [B|B].
      * destruct (flt_dec b1 v) as [B1|B1]; split; intros H;
          try discriminate H; try tauto.
      * split; [discriminate | tauto].
    + specialize (IH i ltac:(lia)).
      change (nth (S i) (b :: rest) NaN) with (nth i rest NaN).
      change (nth (S (S i)) (b :: rest) NaN) with (nth (S i) rest NaN).
      destruct (flt_dec b v) as [B|B].
      * split; intros H.
        -- apply IH. lia.
        -- f_equal. apply IH. exact H.
      * split; [discriminate|]. intros [H _]. exfalso. apply B.
        rewrite Forall_forall in F.
        apply (flt_trans _ (nth i rest NaN)); [|exact H].
        apply F. apply nth_In. lia.
Qed.

Lemma searchsorted_left_bounded (l : list float) (v : R) :
  (searchsorted_left (l ++ [PInf]) (Fin v) <= length l)%nat.
Proof.
  induction l as [|b l IH]; simpl.
  - lia.
  - destruct (flt_dec b (Fin v)); lia.
Qed.

Lemma sorted_map_seq {A : Type} (lt : A -> A -> Prop) (g : nat -> A) (s n : nat) :
  (forall i j, s <= i -> i < j -> j < s + n -> lt (g i) (g j))%nat ->
  StronglySorted lt (map g (seq s n)).
Proof.
  revert s. induction n as [|n IH]; intros s H; simpl; constructor.
  - apply IH. intros i j Hi Hij Hj. apply H; lia.
  - apply Forall_forall. intros y Hy. apply in_map_iff in Hy.
    destruct Hy as [j [<- Hj]]. apply in_seq in Hj. apply H; lia.
Qed.

Lemma bin_edges_sorted_from (bps : list R) :
  StronglySorted Rlt bps -> StronglySorted flt (map Fin bps ++ [PInf]).
Proof.
  induction 1 as [|b rest Hs IH F]; simpl.
  - constructor; constructor.
  - constructor; [exact IH|].
    apply Forall_app. split.
    + apply Forall_map. eapply Forall_impl; [|exact F]. intros c Hc. exact Hc.
    + constructor; [exact I | constructor].
Qed.

Variable ppf : R -> R.
Hypothesis ppf_increasing : increasing_on_unit ppf.

Lemma breakpoints_seq (a : Z) :
  breakpoints ppf a
  = map (fun i => ppf (IZR (1 + Z.of_nat i) / IZR a)) (seq 0 (Z.to_nat (a - 1))).
Proof.
  unfold breakpoints, breakpoints_0_to_1, range. rewrite !map_map. reflexivity.
Qed.

Lemma breakpoints_length (a : Z) : length (breakpoints ppf a) = Z.to_nat (a - 1).
Proof. rewrite breakpoints_seq, length_map, length_seq. reflexivity. Qed.

Lemma breakpoints_nth (a i : Z) :
  (1 <= i <= a - 1)%Z ->
  nth_error (breakpoints ppf a) (Z.to_nat (i - 1)) = Some (ppf (IZR i / IZR a)).
Proof.
  intros H. rewrite breakpoints_seq, nth_error_map, nth_error_seq.
  destruct (Nat.ltb_spec (Z.to_nat (i - 1)) (Z.to_nat (a - 1))); [|lia].
  cbn [option_map].
  replace (1 + Z.of_nat (0 + Z.to_nat (i - 1)))%Z with i by lia. reflexivity.
Qed.

Lemma cut_probability_bounds (a i : Z) :
  (1 <= i <= a - 1)%Z -> 0 < IZR i / IZR a < 1.
Proof.
  intros H.
  assert (A : 0 < IZR a) by (apply IZR_lt; lia).
  assert (I0 : 0 < IZR i) by (apply IZR_lt; lia).
  assert (I1 : IZR i < IZR a) by (apply IZR_lt; lia).
  split.
  - apply Rdiv_lt_0_compat; assumption.
  - apply (Rmult_lt_reg_r (IZR a)); [assumption|].
    unfold Rdiv. rewrite Rmult_assoc, Rinv_l by lra. lra.
Qed.

Lemma cut_probability_lt (a i j : Z) :
  (0 < a)%Z -> (i < j)%Z -> IZR i / IZR a < IZR j / IZR a.
Proof.
  intros Ha H.
  assert (A : 0 < IZR a) by (apply IZR_lt; lia).
  apply Rmult_lt_compat_r; [apply Rinv_0_lt_compat; assumption | apply IZR_lt; assumption].
Qed.

Lemma breakpoints_sorted (a : Z) : StronglySorted Rlt (breakpoints ppf a).
Proof.
  rewrite breakpoints_seq. apply sorted_map_seq.
  intros i j Hi Hij Hj.
  apply ppf_increasing.
  - apply cut_probability_bounds. lia.
  - apply cut_probability_lt; lia.
  - apply cut_probability_bounds. lia.
Qed.

Lemma bin_edges_sorted (a : Z) : StronglySorted flt (bin_edges ppf a).
Proof.
  unfold bin_edges. simpl. constructor.
  - apply bin_edges_sorted_from, breakpoints_sorted.
  - apply Forall_app. split.
    + apply Forall_map. apply Forall_forall. intros; exact I.
    + constructor; [exact I | constructor].
Qed.

Lemma bin_edges_length (a : Z) : length (bin_edges ppf a) = S (S (Z.to_nat (a - 1))).
Proof.
  unfold bin_edges. simpl. rewrite length_app, length_map, breakpoints_length.
  simpl. lia.
Qed.

(** C4.  For an alphabet size a >= 2 there are exactly a - 1 breakpoints,
    the i-th being ppf(i / a) for i = 1 .. a - 1, and they are strictly
    increasing. *)
Theorem breakpoints_increasing (a : Z) (Ha : (2 <= a)%Z) :
  length (breakpoints ppf a) = Z.to_nat (a - 1)
  /\ (forall i : Z, (1 <= i <= a - 1)%Z ->
        nth_error (breakpoints ppf a) (Z.to_nat (i - 1)) = Some (ppf (IZR i / IZR a)))
  /\ StronglySorted Rlt (breakpoints ppf a).
Proof.
  split; [apply breakpoints_length|].
  split; [apply breakpoints_nth | apply breakpoints_sorted].
Qed.

Lemma sorted_nth (l : list float) (i j : nat) :
  StronglySorted flt l -> (i < j)%nat -> (j < length l)%nat ->
  flt (nth i l NaN) (nth j l NaN).
Proof.
  intros Hs. revert i j. induction Hs as [|b rest Hs IH F]; intros i j Hij Hj.
  - simpl in Hj. lia.
  - simpl in Hj. destruct j as [|j]; [lia|]. destruct i as [|i].
    + simpl. rewrite Forall_forall in F. apply F, nth_In. lia.
    + simpl. apply IH; lia.
Qed.

Lemma bin_edges_not_nan (a : Z) (i : nat) :
  (i < length (bin_edges ppf a))%nat -> edge ppf a i <> NaN.
Proof.
  intros H. unfold edge.
  assert (F : Forall (fun e => e <> NaN) (bin_edges ppf a)).
  { unfold bin_edges. apply Forall_app; split; [| apply Forall_app; split].
    - constructor; [discriminate | constructor].
    - apply Forall_map, Forall_forall. intros; discriminate.
    - constructor; [discriminate | constructor]. }
  rewrite Forall_forall in F. apply F, nth_In. exact H.
Qed.

(** With an alphabet size of at least 1, none of the checks of [cut]
    fires. *)
Lemma transform_to_SAX_cut_values (x : list float) (a : Z) :
  (1 <= a)%Z ->
  transform_to_SAX ppf x a = Ok (map (cut_value (bin_edges ppf a) (cat_names a)) x).
Proof.
  intros Ha. unfold transform_to_SAX, cut. fold (bin_edges ppf a).
  rewrite (descends_sorted _ (bin_edges_sorted a)).
  rewrite (unique_NoDup float_eq_dec _ (NoDup_sorted _ (bin_edges_sorted a))).
  rewrite (unique_NoDup string_dec _ (cat_names_NoDup a)).
  rewrite cat_names_length, bin_edges_length.
  replace (S (S (Z.to_nat (a - 1))) - 1)%nat with (Z.to_nat a) by lia.
  rewrite Nat.eqb_refl. reflexivity.
Qed.

(** A finite value falls in one of the [a] bins. *)
Lemma cut_value_finite (a : Z) (v : R) :
  (1 <= a)%Z ->
  exists i : nat,
    (i < Z.to_nat a)%nat
    /\ searchsorted_left (bin_edges ppf a) (Fin v) = S i
    /\ cut_value (bin_edges ppf a) (cat_names a) (Fin v) = Some (symbol i).
Proof.
  intros Ha.
  exists (searchsorted_left (map Fin (breakpoints ppf a) ++ [PInf]) (Fin v)).
  pose proof (searchsorted_left_bounded (map Fin (breakpoints ppf a)) v) as B.
  rewrite length_map, breakpoints_length in B.
  assert (E : searchsorted_left (bin_edges ppf a) (Fin v)
              = S (searchsorted_left (map Fin (breakpoints ppf a) ++ [PInf]) (Fin v)))
    by reflexivity.
  split; [lia|]. split; [exact E|].
  unfold cut_value. cbn [is_nan]. rewrite E, bin_edges_length.
  set (i := searchsorted_left _ _) in *.
  destruct (Nat.eqb_spec (S i) 0); [lia|].
  destruct (Nat.eqb_spec (S i) (S (S (Z.to_nat (a - 1))))); [lia|].
  cbn [orb]. replace (S i - 1)%nat with i by lia.
  apply cat_names_nth. lia.
Qed.

Lemma transform_to_SAX_symbols (a : Z) (xs : list R) :
  (1 <= a)%Z ->
  exists syms : list string,
    transform_to_SAX ppf (map Fin xs) a = Ok (map Some syms)
    /\ length syms = length xs
    /\ Forall (fun s => In s (cat_names a)) syms.
Proof.
  intros Ha. rewrite transform_to_SAX_cut_values by assumption.
  induction xs as [|v xs [syms [E [L F]]]].
  - exists []. repeat split. constructor.
  - destruct (cut_value_finite a v Ha) as [i [Hi [_ C]]].
    exists (symbol i :: syms). cbn [map]. rewrite C.
    injection E as E. rewrite E. repeat split.
    + simpl. rewrite L. reflexivity.
    + constructor; [|exact F].
      eapply nth_error_In. apply cat_names_nth. exact Hi.
Qed.

(** C5.  For an alphabet size a >= 1, every finite value is given one
    category, a member of the alphabet [cat_names a], which has exactly [a]
    distinct names.  With a = 1 there is no breakpoint and every value is
    given the single name "0". *)
Theorem transform_to_SAX_total (a : Z) (Ha : (1 <= a)%Z) (xs : list R) :
  (exists syms : list string,
     transform_to_SAX ppf (map Fin xs) a = Ok (map Some syms)
     /\ length syms = length xs
     /\ Forall (fun s => In s (cat_names a)) syms)
  /\ NoDup (cat_names a)
  /\ length (cat_names a) = Z.to_nat a
  /\ breakpoints ppf 1 = []
  /\ transform_to_SAX ppf (map Fin xs) 1 = Ok (map (fun _ => Some "0"%string) xs).
Proof.
  split; [apply transform_to_SAX_symbols; assumption|].
  split; [apply cat_names_NoDup|].
  split; [apply cat_names_length|].
  split; [reflexivity|].
  rewrite transform_to_SAX_cut_values by lia.
  rewrite map_map. reflexivity.
Qed.

Lemma transform_to_SAX_interval_iff (a : Z) (v : R) (i : nat) :
  (1 <= a)%Z -> (i < Z.to_nat a)%nat ->
  (transform_to_SAX ppf [Fin v] a = Ok [Some (symbol i)]
   <-> flt (edge ppf a i) (Fin v) /\ fle (Fin v) (edge ppf a (S i))).
Proof.
  intros Ha Hi. rewrite transform_to_SAX_cut_values by assumption. cbn [map].
  destruct (cut_value_finite a v Ha) as [i0 [Hi0 [E C]]]. rewrite C.
  assert (L : (S i < length (bin_edges ppf a))%nat) by (rewrite bin_edges_length; lia).
  pose proof (searchsorted_left_spec _ (Fin v) i (bin_edges_sorted a) L) as Sp.
  rewrite fle_not_flt by (apply bin_edges_not_nan; exact L).
  fold (edge ppf a i) (edge ppf a (S i)) in Sp.
  rewrite <- Sp, E. split; intros H.
  - injection H as H. apply symbol_inj in H. congruence.
  - injection H as ->. reflexivity.
Qed.

Lemma edge_breakpoint (a j : Z) :
  (1 <= j <= a - 1)%Z -> edge ppf a (Z.to_nat j) = Fin (ppf (IZR j / IZR a)).
Proof.
  intros H. unfold edge, bin_edges.
  replace (Z.to_nat j) with (S (Z.to_nat (j - 1))) by lia.
  cbn [app nth].
  apply nth_error_nth.
  rewrite nth_error_app1 by (rewrite length_map, breakpoints_length; lia).
  rewrite nth_error_map, breakpoints_nth by assumption. reflexivity.
Qed.

(** C6.  For an alphabet size a >= 2, a value v is given the name of bin i
    exactly when edge i < v <= edge (i+1), the edges being -inf, the
    breakpoints and +inf; so a value equal to a breakpoint goes to the bin
    of which that breakpoint is the upper edge. *)
Theorem transform_to_SAX_right_closed (a : Z) (Ha : (2 <= a)%Z) :
  (forall (v : R) (i : nat), (i < Z.to_nat a)%nat ->
     (transform_to_SAX ppf [Fin v] a = Ok [Some (symbol i)]
      <-> flt (edge ppf a i) (Fin v) /\ fle (Fin v) (edge ppf a (S i))))
  /\ (forall j : Z, (1 <= j <= a - 1)%Z ->
        edge ppf a (Z.to_nat j) = Fin (ppf (IZR j / IZR a))
        /\ transform_to_SAX ppf [Fin (ppf (IZR j / IZR a))] a
           = Ok [Some (symbol (Z.to_nat (j - 1)))]).
Proof.
  split.
  - intros v i Hi. apply transform_to_SAX_interval_iff; [lia | exact Hi].
  - intros j Hj. split; [apply edge_breakpoint; exact Hj|].
    apply transform_to_SAX_interval_iff; [lia | lia |].
    replace (S (Z.to_nat (j - 1))) with (Z.to_nat j) by lia.
    rewrite <- edge_breakpoint by exact Hj. split.
    + apply sorted_nth; [apply bin_edges_sorted | lia |].
      rewrite bin_edges_length. lia.
    + rewrite edge_breakpoint by exact Hj. simpl. apply Rlt_irrefl.
Qed.

End Binning.


(** ** The pipeline *)

Section Pipeline.

Variable rng : Type.
Variable seed : Z -> rng.
Variable standard_normal : nat -> rng -> list R * rng.
Variable ppf : R -> R.

(** The series that [make_timeseries] returns, and the state it leaves. *)
Lemma make_timeseries_eq (g : rng) :
  make_timeseries seed standard_normal g
  = ((lfilter [1; 0.5] [1; - 0.0] (fst (standard_normal 100 (seed 12345))), 100%nat),
     snd (standard_normal 100 (seed 12345))).
Proof.
  unfold make_timeseries, generate_sample.
  destruct (standard_normal 100 (seed 12345)) as [eta g']. reflexivity.
Qed.

(** C7.  The generator is deterministic: whatever the state of the global
    random generator when they start, two calls of [make_timeseries] return
    the same series (and leave the same state), and so two runs of
    [produce_SAX_data] with the same frame size and alphabet size return the
    same result. *)
Theorem make_timeseries_deterministic (g g' : rng) (f : Q) (a : Z) :
  make_timeseries seed standard_normal g = make_timeseries seed standard_normal g'
  /\ fst (make_timeseries seed standard_normal (snd (make_timeseries seed standard_normal g))) = fst (make_timeseries seed standard_normal g)
  /\ produce_SAX_data seed standard_normal ppf f a g = produce_SAX_data seed standard_normal ppf f a g'
  /\ fst (produce_SAX_data seed standard_normal ppf f a (snd (produce_SAX_data seed standard_normal ppf f a g))) = fst (produce_SAX_data seed standard_normal ppf f a g).
Proof.
  assert (M : forall h h', make_timeseries seed standard_normal h = make_timeseries seed standard_normal h').
  { intros h h'. rewrite !make_timeseries_eq. reflexivity. }
  assert (P : forall h h', produce_SAX_data seed standard_normal ppf f a h = produce_SAX_data seed standard_normal ppf f a h').
  { intros h h'. unfold produce_SAX_data. rewrite (M h h'). reflexivity. }
  split; [apply M|]. split; [rewrite (M _ g); reflexivity|].
  split; [apply P|]. rewrite (P _ g). reflexivity.
Qed.

(** [produce_SAX_data] aggregates the generated series, normalises the
    aggregated values, encodes the normalised values, and returns the raw
    series, the encoded series and the length. *)
Lemma produce_SAX_data_order (f : Q) (a : Z) (g : rng) :
  fst (produce_SAX_data seed standard_normal ppf f a g)
  = (let x := fst (fst (make_timeseries seed standard_normal g)) in
     x_agg <- reduce_PAA x f ;;
     x_SAX <- transform_to_SAX ppf (normalize (values x_agg)) a ;;
     Ok (x, x_SAX, 100%nat)).
Proof.
  unfold produce_SAX_data. rewrite make_timeseries_eq. reflexivity.
Qed.

Lemma lfilter_from_length (b a xh yh x : list R) :
  length (lfilter_from b a xh yh x) = length x.
Proof.
  revert xh yh. induction x as [|xn x IH]; intros xh yh; simpl; [reflexivity|].
  rewrite IH. reflexivity.
Qed.

Hypothesis standard_normal_length :
  forall (size : nat) (g : rng), length (fst (standard_normal size g)) = size.

Lemma make_timeseries_length (g : rng) : length (fst (fst (make_timeseries seed standard_normal g))) = 100%nat.
Proof.
  rewrite make_timeseries_eq. cbn [fst]. unfold lfilter.
  rewrite lfilter_from_length. apply standard_normal_length.
Qed.

Hypothesis ppf_increasing : increasing_on_unit ppf.

(** Length of the encoded series for frame size 4 and alphabet size 5,
    whatever sample the generator draws. *)
Lemma produce_SAX_data_length_25 (g : rng) :
  exists x_SAX : list (option string),
    fst (produce_SAX_data seed standard_normal ppf 4 5 g)
    = Ok (fst (fst (make_timeseries seed standard_normal g)), x_SAX, 100%nat)
    /\ length x_SAX = 25%nat.
Proof.
  rewrite produce_SAX_data_order. cbv zeta.
  set (x := fst (fst (make_timeseries seed standard_normal g))).
  assert (L : length x = 100%nat) by apply make_timeseries_length.
  change 4%Q with (inject_Z (Z.of_nat 4)).
  rewrite reduce_PAA_windows by lia. rewrite L.
  change (ceil_div 100 4) with 25%nat. cbn [bind].
  rewrite transform_to_SAX_cut_values by (assumption || lia). cbn [bind].
  eexists. split; [reflexivity|].
  unfold normalize, values. rewrite !length_map, length_seq. reflexivity.
Qed.

(** What [produce_SAX_data] does with parameters outside their range: it
    checks nothing itself.  A frame size above the length gives one group,
    whose normalisation is NaN and whose category is missing. *)
Lemma produce_SAX_data_frame_above_length (g : rng) :
  fst (produce_SAX_data seed standard_normal ppf 101 5 g)
  = Ok (fst (fst (make_timeseries seed standard_normal g)), [None], 100%nat).
Proof.
  rewrite produce_SAX_data_order. cbv zeta.
  set (x := fst (fst (make_timeseries seed standard_normal g))).
  assert (L : length x = 100%nat) by apply make_timeseries_length.
  change 101%Q with (inject_Z (Z.of_nat 101)).
  rewrite reduce_PAA_windows by lia. rewrite L.
  change (ceil_div 100 101) with 1%nat. cbn [seq map bind values snd].
  rewrite transform_to_SAX_cut_values by (assumption || lia).
  reflexivity.
Qed.

(** A frame size of zero stops in the division of the first index. *)
Lemma produce_SAX_data_frame_zero (a : Z) (g : rng) :
  fst (produce_SAX_data seed standard_normal ppf 0 a g) = Raise ZeroDivisionError.
Proof.
  rewrite produce_SAX_data_order. cbv zeta.
  set (x := fst (fst (make_timeseries seed standard_normal g))).
  assert (L : length x = 100%nat) by apply make_timeseries_length.
  unfold reduce_PAA, index. rewrite L. reflexivity.
Qed.

(** An alphabet size of zero is refused by [pd.cut] only, after the
    aggregation and the normalisation. *)
Lemma transform_to_SAX_alphabet_zero (x : list float) :
  transform_to_SAX ppf x 0
  = Raise (ValueError "Bin labels must be one fewer than the number of bin edges").
Proof. reflexivity. Qed.

(** The check of [show_hist] refuses exactly what is not an integer of
    [1, n]. *)
Lemma out_of_bounds_invalid (v : Q) (n : nat) :
  out_of_bounds v n = true <-> invalid v n.
Proof.
  unfold out_of_bounds, invalid. split.
  - intros H [k [Hk E]].
    assert (B1 : Qle_bool 1 v = true).
    { apply Qle_bool_iff. rewrite E. unfold Qle; simpl. lia. }
    assert (B2 : Qle_bool v (inject_Z (Z.of_nat n)) = true).
    { apply Qle_bool_iff. rewrite E. unfold Qle; simpl. lia. }
    assert (B3 : Qeq_bool v (inject_Z (int_of v)) = true).
    { apply Qeq_bool_iff. unfold Qeq in *. simpl in *.
      unfold int_of. rewrite Z.mul_1_r in E. rewrite E, Z.quot_mul by lia.
      lia. }
    rewrite B1, B2, B3 in H. discriminate H.
  - intros H.
    destruct (Qle_bool 1 v) eqn:B1; [|reflexivity].
    destruct (Qle_bool v (inject_Z (Z.of_nat n))) eqn:B2; [|reflexivity].
    destruct (Qeq_bool v (inject_Z (int_of v))) eqn:B3; [|reflexivity].
    exfalso. apply H. exists (int_of v).
    apply Qle_bool_iff in B1, B2. apply Qeq_bool_iff in B3.
    split; [|exact B3].
    rewrite B3 in B1, B2. unfold Qle in B1, B2. simpl in B1, B2. lia.
Qed.

Lemma int_of_integer (v : Q) (k : Z) : (v == inject_Z k)%Q -> int_of v = k.
Proof.
  unfold Qeq, int_of. simpl. intros E. rewrite Z.mul_1_r in E.
  rewrite E, Z.quot_mul by lia. reflexivity.
Qed.

Lemma out_of_bounds_valid (v : Q) (n : nat) :
  out_of_bounds v n = false
  <-> exists k : Z, (1 <= k <= Z.of_nat n)%Z /\ (v == inject_Z k)%Q.
Proof.
  split.
  - intros H. unfold out_of_bounds in H.
    destruct (Qle_bool 1 v) eqn:B1; [|discriminate H].
    destruct (Qle_bool v (inject_Z (Z.of_nat n))) eqn:B2; [|discriminate H].
    destruct (Qeq_bool v (inject_Z (int_of v))) eqn:B3; [|discriminate H].
    exists (int_of v).
    apply Qle_bool_iff in B1, B2. apply Qeq_bool_iff in B3.
    split; [|exact B3].
    rewrite B3 in B1, B2. unfold Qle in B1, B2. simpl in B1, B2. lia.
  - intros V. destruct (out_of_bounds v n) eqn:B; [|reflexivity].
    exfalso. apply out_of_bounds_invalid in B. exact (B V).
Qed.

(** On a finite value the three tests are evaluated without raising. *)
Lemma out_of_range_finite (q : Q) (n : nat) :
  out_of_range (finite q) n = Ok (out_of_bounds q n).
Proof.
  unfold out_of_range, out_of_bounds, py_lt, py_gt, py_int, py_ne. cbn [bind].
  change (inject_Z 1) with 1%Q.
  destruct (Qle_bool 1 q), (Qle_bool q (inject_Z (Z.of_nat n))); reflexivity.
Qed.

Lemma reads_integer_finite (q : Q) (n : nat) :
  reads_integer (finite q) n <-> out_of_bounds q n = false.
Proof.
  rewrite out_of_bounds_valid. unfold reads_integer. split.
  - intros [q' [k [E [Hk Hq]]]]. injection E as E. subst q'. exists k. split; assumption.
  - intros [k [Hk Hq]]. exists q, k. split; [reflexivity | split; assumption].
Qed.

(** What the check of a text field comes to: NaN raises in [int], an
    integer of [1, n] passes, everything else (the infinities included) is
    refused. *)
Lemma out_of_range_cases (v : pyfloat) (n : nat) :
  (v = nan
   /\ out_of_range v n = Raise (ValueError "cannot convert float NaN to integer"))
  \/ (v <> nan /\ reads_integer v n /\ out_of_range v n = Ok false)
  \/ (v <> nan /\ ~ reads_integer v n /\ out_of_range v n = Ok true).
Proof.
  destruct v as [q| | |].
  - rewrite out_of_range_finite. right.
    destruct (out_of_bounds q n) eqn:B.
    + right. split; [discriminate|]. split; [|reflexivity].
      rewrite reads_integer_finite. congruence.
    + left. split; [discriminate|]. split; [|reflexivity].
      apply reads_integer_finite. exact B.
  - right. right. split; [discriminate|]. split; [|reflexivity].
    intros [q [k [E _]]]. discriminate E.
  - right. right. split; [discriminate|]. split; [|reflexivity].
    intros [q [k [E _]]]. discriminate E.
  - left. split; reflexivity.
Qed.

(** C1, as the program has it.  The checks are made by the [show_hist]
    branch of the event loop, not by [produce_SAX_data], on the two text
    fields as [float] reads them (n = 100).  Whenever the fields are not
    both integers of [1, n], and no field that reads as NaN is reached by
    the checks, the branch ends with an error popup and without an encoded
    series.  The popup is "Please enter frame size" when the frame size
    field is not a number, and the one about the frame size when it is a
    number but not an integer of [1, n]; behind a valid frame size it is
    "Please enter frame size" again when the alphabet size field is not a
    number, and the one about the alphabet size when it is a number but not
    an integer of [1, n]. *)
Theorem show_hist_rejects (edit_f edit_a : option pyfloat) (g : rng)
  (H : ~ fields_valid edit_f edit_a) (N : ~ fields_nan edit_f edit_a) :
  exists popup : string,
    show_hist seed standard_normal ppf edit_f edit_a g
    = (Break popup, snd (make_timeseries seed standard_normal g))
    /\ (edit_f = None -> popup = "Please enter frame size"%string)
    /\ (forall f, edit_f = Some f -> ~ reads_integer f 100 ->
          popup = "Frame size has to be an integer between 1 and n."%string)
    /\ (forall f, edit_f = Some f -> reads_integer f 100 -> edit_a = None ->
          popup = "Please enter frame size"%string)
    /\ (forall f a, edit_f = Some f -> reads_integer f 100 -> edit_a = Some a ->
          popup = "Alphabet size has to be an integer between 1 and n."%string).
Proof.
  unfold show_hist. rewrite make_timeseries_eq. cbn [fst snd].
  destruct edit_f as [f|].
  2:{ eexists. split; [reflexivity|]. split; [reflexivity|].
      split; [|split]; intros; discriminate. }
  destruct (out_of_range_cases f 100) as [[Nf Ef]|[[Nf [Vf Ef]]|[Nf [Vf Ef]]]];
    rewrite Ef.
  - exfalso. apply N. left. rewrite Nf. reflexivity.
  - destruct edit_a as [a|].
    2:{ eexists. split; [reflexivity|]. split; [discriminate|].
        split; [|split].
        - intros f' E W. injection E as <-. contradiction.
        - reflexivity.
        - intros; discriminate. }
    destruct (out_of_range_cases a 100) as [[Na Ea]|[[Na [Va Ea]]|[Na [Va Ea]]]];
      rewrite Ea.
    + exfalso. apply N. right. exists f. rewrite Na. repeat split. exact Vf.
    + exfalso. apply H. exists f, a. repeat split; assumption.
    + eexists. split; [reflexivity|]. split; [discriminate|].
      split; [|split].
      * intros f' E W. injection E as <-. contradiction.
      * intros; discriminate.
      * reflexivity.
  - eexists. split; [reflexivity|]. split; [discriminate|].
    split; [|split].
    + reflexivity.
    + intros f' E V. injection E as <-. contradiction.
    + intros f' a E V. injection E as <-. contradiction.
Qed.

End Pipeline.


(** ** The properties on the small instance *)

Section Instance.

Lemma example_standard_normal_length (size : nat) (g : Example.rng) :
  length (fst (Example.standard_normal size g)) = size.
Proof. unfold Example.standard_normal. cbn [fst]. rewrite length_map, length_seq. reflexivity. Qed.

Lemma example_ppf_increasing : increasing_on_unit Example.ppf.
Proof. intros p q _ H _. unfold Example.ppf. lra. Qed.

Lemma breakpoints_increasing_witness :
  length (breakpoints Example.ppf 5) = 4%nat
  /\ (forall i : Z, (1 <= i <= 5 - 1)%Z ->
        nth_error (breakpoints Example.ppf 5) (Z.to_nat (i - 1))
        = Some (Example.ppf (IZR i / IZR 5)))
  /\ StronglySorted Rlt (breakpoints Example.ppf 5).
Proof.
  apply (breakpoints_increasing Example.ppf example_ppf_increasing 5). lia.
Defined.

Lemma transform_to_SAX_total_witness :
  (exists syms : list string,
     transform_to_SAX Example.ppf (map Fin [-1; 0; 1]) 3 = Ok (map Some syms)
     /\ length syms = 3%nat
     /\ Forall (fun s => In s (cat_names 3)) syms)
  /\ NoDup (cat_names 3)
  /\ length (cat_names 3) = 3%nat
  /\ breakpoints Example.ppf 1 = []
  /\ transform_to_SAX Example.ppf (map Fin [-1; 0; 1]) 1
     = Ok (map (fun _ => Some "0"%string) [-1; 0; 1]).
Proof.
  apply (transform_to_SAX_total Example.ppf example_ppf_increasing 3). lia.
Defined.

Lemma transform_to_SAX_right_closed_witness :
  (forall (v : R) (i : nat), (i < 5)%nat ->
     (transform_to_SAX Example.ppf [Fin v] 5 = Ok [Some (symbol i)]
      <-> flt (edge Example.ppf 5 i) (Fin v) /\ fle (Fin v) (edge Example.ppf 5 (S i))))
  /\ (forall j : Z, (1 <= j <= 5 - 1)%Z ->
        edge Example.ppf 5 (Z.to_nat j) = Fin (Example.ppf (IZR j / IZR 5))
        /\ transform_to_SAX Example.ppf [Fin (Example.ppf (IZR j / IZR 5))] 5
           = Ok [Some (symbol (Z.to_nat (j - 1)))]).
Proof.
  apply (transform_to_SAX_right_closed Example.ppf example_ppf_increasing 5). lia.
Defined.

Lemma invalid_101 : invalid 101 100.
Proof.
  intros [k [Hk E]]. unfold Qeq in E. simpl in E. lia.
Qed.

(** C1 fails on [produce_SAX_data]: with the frame size n + 1 = 101 it
    raises nothing, runs the aggregation, the normalisation and the
    encoding, and returns a result. *)
Lemma produce_SAX_data_unchecked :
  invalid 101 100
  /\ fst (produce_SAX_data Example.seed Example.standard_normal Example.ppf 101 5 O)
     = Ok (fst (fst (make_timeseries Example.seed Example.standard_normal O)),
           [None], 100%nat)
  /\ forall e : exn,
       fst (produce_SAX_data Example.seed Example.standard_normal Example.ppf 101 5 O)
       <> Raise e.
Proof.
  pose proof (produce_SAX_data_frame_above_length Example.rng Example.seed
                Example.standard_normal Example.ppf example_standard_normal_length
                example_ppf_increasing O) as E.
  split; [exact invalid_101|]. split; [exact E|].
  intros e. rewrite E. discriminate.
Qed.

Lemma not_reads_integer_101 : ~ reads_integer (finite 101) 100.
Proof.
  intros [q [k [E [Hk Hq]]]]. injection E as E. subst q.
  unfold Qeq in Hq. simpl in Hq. lia.
Qed.

Lemma show_hist_rejects_witness :
  exists popup : string,
    show_hist Example.seed Example.standard_normal Example.ppf
      (Some (finite 101)) (Some (finite 5)) O
    = (Break popup, snd (make_timeseries Example.seed Example.standard_normal O))
    /\ (Some (finite 101) = None -> popup = "Please enter frame size"%string)
    /\ (forall f, Some (finite 101) = Some f -> ~ reads_integer f 100 ->
          popup = "Frame size has to be an integer between 1 and n."%string)
    /\ (forall f, Some (finite 101) = Some f -> reads_integer f 100 ->
          Some (finite 5) = None ->
          popup = "Please enter frame size"%string)
    /\ (forall f a, Some (finite 101) = Some f -> reads_integer f 100 ->
          Some (finite 5) = Some a ->
          popup = "Alphabet size has to be an integer between 1 and n."%string).
Proof.
  apply (show_hist_rejects Example.rng Example.seed Example.standard_normal Example.ppf
           (Some (finite 101)) (Some (finite 5)) O).
  - intros [f [a [E [_ [V _]]]]]. injection E as <-. exact (not_reads_integer_101 V).
  - intros [C|[f [E [V _]]]]; [discriminate C|].
    injection E as <-. exact (not_reads_integer_101 V).
Defined.

End Instance.


(** ** Grouping in general *)

Section Grouping.

Lemma labels_ok (x : series) (f : Q) :
  ~ (f == 0)%Q ->
  mapM (fun i => q <- truediv i f ;; Ok (Qfloor q)) (index x) = Ok (labels x f).
Proof.
  intros Hf. unfold labels. induction (index x) as [|i l IH]; [reflexivity|].
  cbn [mapM map bind]. rewrite IH. unfold truediv.
  destruct (Qeq_bool f 0) eqn:E; [|reflexivity].
  apply Qeq_bool_eq in E. contradiction.
Qed.


Lemma reduce_PAA_nonzero (x : series) (f : Q) :
  ~ (f == 0)%Q -> reduce_PAA x f = Ok (groupby_mean (labels x f) x).
Proof. intros Hf. unfold reduce_PAA. rewrite labels_ok by assumption. reflexivity. Qed.

(** X1.  [reduce_PAA] raises in one case only: a frame size equal to zero on
    a series that is not empty, where the division of the first index raises
    ZeroDivisionError.  On the empty series nothing is divided and the
    result is the empty series, whatever the frame size. *)
Theorem reduce_PAA_raises_iff (x : series) (f : Q) (e : exn) :
  (reduce_PAA x f = Raise e <-> (e = ZeroDivisionError /\ (f == 0)%Q /\ x <> []))
  /\ reduce_PAA [] f = Ok [].
Proof.
  split; [|reflexivity].
  destruct (Qeq_bool f 0) eqn:E.
  - pose proof (Qeq_bool_eq _ _ E) as E0.
    destruct x as [|v x].
    + split; [discriminate | intros [_ [_ N]]; congruence].
    + unfold reduce_PAA, index. cbn [length seq map mapM bind]. unfold truediv at 1.
      rewrite E. cbn [bind]. split.
      * intros H. injection H as <-. repeat split; [exact E0 | discriminate].
      * intros [-> _]. reflexivity.
  - assert (N : ~ (f == 0)%Q).
    { intro E0. apply Qeq_bool_iff in E0. congruence. }
    rewrite reduce_PAA_nonzero by assumption.
    split; [discriminate | intros [_ [E0 _]]; contradiction].
Qed.












End Grouping.

(** ** More on the aggregation *)

Section Frames.

Lemma firstn_add {A : Type} (a b : nat) (l : list A) :
  firstn (a + b) l = firstn a l ++ firstn b (skipn a l).
Proof.
  revert l. induction a as [|a IH]; intros l; [reflexivity|].
  destruct l as [|y l]; simpl.
  - rewrite firstn_nil. reflexivity.
  - rewrite IH. reflexivity.
Qed.

Lemma windows_sum (x : series) (f c : nat) :
  sum (map (fun k => sum (window x f k)) (seq 0 c)) = sum (firstn (c * f) x).
Proof.
  induction c as [|c IH]; [reflexivity|].
  rewrite seq_S, map_app, sum_app, IH. cbn [map sum Nat.add].
  replace (S c * f)%nat with (c * f + f)%nat by lia.
  rewrite firstn_add, sum_app. unfold window. lra.
Qed.

Lemma sum_map_factor {A : Type} (c : R) (g : A -> R) (l : list A) :
  sum (map (fun k => c * g k) l) = c * sum (map g l).
Proof.
  induction l as [|a l IH]; simpl; [lra | rewrite IH; lra].
Qed.

Lemma window_width (x : series) (f k : nat) :
  ((k + 1) * f <= length x)%nat -> length (window x f k) = f.
Proof.
  intros H. unfold window. rewrite length_firstn, length_skipn. lia.
Qed.

Lemma ceil_div_multiple (c f : nat) : (1 <= f)%nat -> ceil_div (c * f) f = c.
Proof.
  intros Hf. rewrite ceil_div_cases by lia.
  rewrite Nat.Div0.mod_mul, Nat.div_mul by lia. reflexivity.
Qed.

(** X3.  When the frame size divides the length, the aggregated series has
    length n / f and the same arithmetic mean as the series itself. *)
Theorem reduce_PAA_preserves_mean (x : series) (f c : nat)
  (Hf : (1 <= f)%nat) (Hc : (1 <= c)%nat) (Hn : length x = (c * f)%nat) :
  exists agg : list (Z * R),
    reduce_PAA x (inject_Z (Z.of_nat f)) = Ok agg
    /\ length agg = c
    /\ mean (values agg) = mean x.
Proof.
  eexists. split; [apply reduce_PAA_windows; lia|].
  rewrite Hn, ceil_div_multiple by assumption.
  split; [rewrite length_map, length_seq; reflexivity|].
  unfold values. rewrite map_map. cbn [snd].
  unfold mean at 1. rewrite length_map, length_seq.
  rewrite (map_ext_in _ (fun k => / INR f * sum (window x f k))).
  - rewrite sum_map_factor, windows_sum.
    rewrite firstn_all2 by lia.
    unfold mean. rewrite Hn, mult_INR.
    assert (Fp : INR f <> 0) by (apply not_0_INR; lia).
    assert (Cp : INR c <> 0) by (apply not_0_INR; lia).
    field. split; assumption.
  - intros k Hk. apply in_seq in Hk. unfold mean.
    rewrite window_width by nia.
    unfold Rdiv. apply Rmult_comm.
Qed.

Lemma reduce_PAA_preserves_mean_witness :
  exists agg : list (Z * R),
    reduce_PAA [1; 2; 3; 4; 5; 6] (inject_Z (Z.of_nat 2)) = Ok agg
    /\ length agg = 3%nat
    /\ mean (values agg) = mean [1; 2; 3; 4; 5; 6].
Proof.
  apply (reduce_PAA_preserves_mean [1; 2; 3; 4; 5; 6] 2 3); [lia | lia | reflexivity].
Defined.

(** X4.  A frame size that is at least the length of a non-empty series
    gives a single group, labelled 0, holding the mean of the whole
    series. *)
Theorem reduce_PAA_single_group (x : series) (f : nat)
  (H : (1 <= length x <= f)%nat) :
  reduce_PAA x (inject_Z (Z.of_nat f)) = Ok [(0%Z, mean x)].
Proof.
  rewrite reduce_PAA_windows by lia.
  assert (C : ceil_div (length x) f = 1%nat).
  { pose proof (ceil_div_least (length x) f 1 ltac:(lia)) as L1.
    pose proof (ceil_div_least (length x) f 0 ltac:(lia)) as L0.
    lia. }
  rewrite C. cbn [seq map]. unfold window.
  rewrite Nat.mul_0_l, skipn_O, firstn_all2 by lia. reflexivity.
Qed.

Lemma reduce_PAA_single_group_witness :
  reduce_PAA [1; 2; 3] (inject_Z (Z.of_nat 7)) = Ok [(0%Z, mean [1; 2; 3])].
Proof.
  apply (reduce_PAA_single_group [1; 2; 3] 7). simpl. lia.
Defined.

Lemma add_obs_below (k : Z) (v : R) (acc : list (Z * (R * nat))) :
  Forall (fun e => (k < fst e)%Z) acc -> add_obs k v acc = (k, (v, 1%nat)) :: acc.
Proof.
  intros F. destruct acc as [|[k0 [s c]] acc]; [reflexivity|].
  inversion F as [|? ? H0 _]; subst. simpl in H0. simpl.
  destruct (Z.ltb_spec k k0); [reflexivity | lia].
Qed.

Lemma labels_minus_one (x : series) : labels x (-1) = map Z.opp (index x).
Proof.
  unfold labels. apply map_ext. intros i.
  unfold Qdiv, Qmult, Qinv, Qfloor. simpl.
  rewrite Z.div_1_r. lia.
Qed.

Lemma group_totals_descending (x : series) :
  group_totals (map Z.opp (index x)) x
  = rev (combine (map Z.opp (index x)) (map (fun v => (v, 1%nat)) x)).
Proof.
  unfold index. induction x as [|v x IH] using rev_ind; [reflexivity|].
  rewrite length_app. cbn [length]. rewrite Nat.add_1_r, seq_S, !map_app. cbn [map].
  unfold group_totals in *.
  rewrite !combine_snoc by (rewrite !length_map, length_seq; reflexivity).
  rewrite fold_left_app, rev_app_distr. cbn [fold_left fst snd rev app].
  rewrite IH. apply add_obs_below.
  apply Forall_rev, Forall_forall. intros [k t] I.
  apply in_combine_l in I. apply in_map_iff in I. destruct I as [z [<- I]].
  apply in_map_iff in I. destruct I as [i [<- I]]. apply in_seq in I.
  cbn [fst Nat.add]. lia.
Qed.

(** X5.  The frame size -1 is not refused: every index becomes its own
    group with the label -i, and as the groups come in ascending label
    order the result is the series in reverse. *)
Theorem reduce_PAA_minus_one (x : series) :
  exists agg : list (Z * R),
    reduce_PAA x (-1) = Ok agg
    /\ values agg = rev x
    /\ map fst agg = rev (map Z.opp (index x)).
Proof.
  exists (groupby_mean (labels x (-1)) x).
  split; [apply reduce_PAA_nonzero; intro H; discriminate H|].
  unfold groupby_mean, values.
  rewrite labels_minus_one, group_totals_descending, !map_map. cbn [fst snd].
  rewrite !map_rev.
  assert (L : length (map Z.opp (index x)) = length (map (fun v => (v, 1%nat)) x)).
  { unfold index. rewrite !length_map, length_seq. reflexivity. }
  split; f_equal.
  - generalize dependent (map Z.opp (index x)). clear.
    induction x as [|v x IH]; intros [|k ks] L; simpl in *; try discriminate; try reflexivity.
    rewrite IH by lia. f_equal. field.
  - generalize dependent (map Z.opp (index x)). clear.
    induction x as [|v x IH]; intros [|k ks] L; simpl in *; try discriminate; try reflexivity.
    rewrite IH by lia. reflexivity.
Qed.

End Frames.

(** ** More on the normalisation *)

Section Scores.











End Scores.

(** ** More on the encoding *)

Section Symbols.

Lemma int_base2_from_app (acc : N) (s t : string) :
  int_base2_from acc (s ++ t) = int_base2_from (int_base2_from acc s) t.
Proof.
  revert acc. induction s as [|c s IH]; intros acc; [reflexivity|].
  simpl. apply IH.
Qed.

Lemma int_base2_bin_pos (p : positive) : int_base2 (bin_pos p) = Npos p.
Proof.
  unfold int_base2. induction p as [p IH|p IH|]; cbn [bin_pos].
  - rewrite int_base2_from_app, IH. simpl. reflexivity.
  - rewrite int_base2_from_app, IH. simpl. reflexivity.
  - reflexivity.
Qed.

(** X10.  The name of category [i] is the binary numeral of [i]: read in
    base 2 it gives [i] back. *)
Theorem symbol_value (i : nat) : int_base2 (symbol i) = N.of_nat i.
Proof.
  unfold symbol. apply N2Z.inj. rewrite nat_N_Z.
  destruct (Z.of_nat i) as [|p|p] eqn:E.
  - reflexivity.
  - cbn [bin append drop]. rewrite int_base2_bin_pos. reflexivity.
  - lia.
Qed.

Variable ppf : R -> R.
Hypothesis ppf_increasing : increasing_on_unit ppf.

Lemma searchsorted_left_top (bps : list R) :
  searchsorted_left (map Fin bps ++ [PInf]) PInf = length bps.
Proof.
  induction bps as [|b bps IH]; [reflexivity|].
  simpl. rewrite IH. reflexivity.
Qed.

(** X11.  With an alphabet size of at least 1: NaN gets no category, minus
    infinity gets none either (the lowest bin is open at its lower edge
    -inf), and plus infinity gets the last category. *)
Theorem transform_to_SAX_special (a : Z) (Ha : (1 <= a)%Z) :
  transform_to_SAX ppf [NaN; NInf; PInf] a
  = Ok [None; None; Some (symbol (Z.to_nat (a - 1)))].
Proof.
  rewrite transform_to_SAX_cut_values by assumption.
  cbn [map]. do 3 f_equal. f_equal.
  unfold cut_value. cbn [is_nan].
  assert (E : searchsorted_left (bin_edges ppf a) PInf = S (Z.to_nat (a - 1))).
  { change (searchsorted_left (bin_edges ppf a) PInf)
      with (S (searchsorted_left (map Fin (breakpoints ppf a) ++ [PInf]) PInf)).
    rewrite searchsorted_left_top, breakpoints_length. reflexivity. }
  rewrite E, bin_edges_length.
  destruct (Nat.eqb_spec (S (Z.to_nat (a - 1))) 0); [lia|].
  destruct (Nat.eqb_spec (S (Z.to_nat (a - 1))) (S (S (Z.to_nat (a - 1))))); [lia|].
  cbn [orb]. replace (S (Z.to_nat (a - 1)) - 1)%nat with (Z.to_nat (a - 1)) by lia.
  rewrite cat_names_nth by lia. reflexivity.
Qed.

Lemma transform_to_SAX_nonpositive (x : list float) (a : Z) :
  (a <= 0)%Z ->
  transform_to_SAX ppf x a
  = Raise (ValueError "Bin labels must be one fewer than the number of bin edges").
Proof.
  intros Ha. unfold transform_to_SAX.
  assert (B : breakpoints ppf a = []).
  { rewrite breakpoints_seq. replace (Z.to_nat (a - 1)) with 0%nat by lia. reflexivity. }
  assert (C : cat_names a = []).
  { rewrite cat_names_symbols. replace (Z.to_nat a) with 0%nat by lia. reflexivity. }
  rewrite B, C. reflexivity.
Qed.

(** X12.  [transform_to_SAX] raises exactly when the alphabet size is zero
    or negative, and then it is the ValueError of [pd.cut] about the number
    of labels; with an alphabet size of at least 1 it returns one entry per
    input value, whatever the values (NaN and the infinities included). *)
Theorem transform_to_SAX_raises_iff (x : list float) (a : Z) (e : exn) :
  (transform_to_SAX ppf x a = Raise e
   <-> (a <= 0)%Z
       /\ e = ValueError "Bin labels must be one fewer than the number of bin edges")
  /\ ((exists out, transform_to_SAX ppf x a = Ok out /\ length out = length x)
      <-> (1 <= a)%Z).
Proof.
  destruct (Z.le_gt_cases a 0) as [L|L].
  - rewrite transform_to_SAX_nonpositive by assumption. split; split.
    + intros H. injection H as <-. split; [exact L | reflexivity].
    + intros [_ ->]. reflexivity.
    + intros [out [H _]]. discriminate H.
    + lia.
  - rewrite transform_to_SAX_cut_values by (assumption || lia). split; split.
    + discriminate.
    + intros [H _]. lia.
    + lia.
    + intros _. eexists. split; [reflexivity | apply length_map].
Qed.

Lemma searchsorted_left_mono (bins : list float) (v w : R) :
  v <= w -> (searchsorted_left bins (Fin v) <= searchsorted_left bins (Fin w))%nat.
Proof.
  intros H. induction bins as [|b bins IH]; simpl; [lia|].
  destruct (flt_dec b (Fin v)) as [Bv|Bv]; [|lia].
  destruct (flt_dec b (Fin w)) as [Bw|Bw]; [lia|].
  exfalso. apply Bw. destruct b; simpl in *; try tauto. lra.
Qed.

(** X13.  The encoding keeps the order: of two finite values, the larger
    one is never given a category of lower rank. *)
Theorem transform_to_SAX_monotone (a : Z) (v w : R) (i j : nat)
  (Ha : (1 <= a)%Z) (Hvw : v <= w)
  (Hi : transform_to_SAX ppf [Fin v] a = Ok [Some (symbol i)])
  (Hj : transform_to_SAX ppf [Fin w] a = Ok [Some (symbol j)]) :
  (i <= j)%nat.
Proof.
  rewrite transform_to_SAX_cut_values in Hi, Hj by assumption. cbn [map] in Hi, Hj.
  destruct (cut_value_finite ppf a v Ha) as [i0 [_ [Ei Ci]]].
  destruct (cut_value_finite ppf a w Ha) as [j0 [_ [Ej Cj]]].
  rewrite Ci in Hi. rewrite Cj in Hj.
  injection Hi as Hi. injection Hj as Hj.
  apply symbol_inj in Hi, Hj. subst i0 j0.
  pose proof (searchsorted_left_mono (bin_edges ppf a) v w Hvw) as M.
  rewrite Ei, Ej in M. lia.
Qed.

End Symbols.


(** ** Runs of the program *)

Section Runs.

Variable rng : Type.
Variable seed : Z -> rng.
Variable standard_normal : nat -> rng -> list R * rng.
Variable ppf : R -> R.

Lemma lfilter_moving_average (xh yh e : list R) (p q : R) :
  lfilter_from [1; 0.5] [1; - 0.0] (p :: xh) (q :: yh) e = moving_average 0.5 p e.
Proof.
  revert xh yh p q. induction e as [|et e IH]; intros xh yh p q; [reflexivity|].
  cbn [lfilter_from moving_average]. rewrite IH. f_equal.
  simpl. lra.
Qed.

(** X14.  The autoregressive coefficient being zero, the generated series
    is a moving average of the noise drawn after seeding with 12345: the
    first value is the first draw, every later value is the draw of its
    period plus half the draw before; and the length returned with it
    is 100. *)
Theorem make_timeseries_moving_average (g : rng) :
  fst (make_timeseries seed standard_normal g)
  = (moving_average 0.5 0 (fst (standard_normal 100 (seed 12345))), 100%nat).
Proof.
  rewrite make_timeseries_eq. cbn [fst]. f_equal.
  unfold lfilter. destruct (fst (standard_normal 100 (seed 12345))) as [|e0 e]; [reflexivity|].
  cbn [lfilter_from moving_average]. rewrite lfilter_moving_average. f_equal.
  simpl. lra.
Qed.

Hypothesis standard_normal_length :
  forall (size : nat) (g : rng), length (fst (standard_normal size g)) = size.
Hypothesis ppf_increasing : increasing_on_unit ppf.

(** X15.  With an integral frame size of at least 1 and an alphabet size of
    at least 1, [produce_SAX_data] raises nothing: it returns the raw
    series, an encoded series of length ceil(100 / f) and the length 100. *)
Theorem produce_SAX_data_valid (f : nat) (a : Z) (g : rng)
  (Hf : (1 <= f)%nat) (Ha : (1 <= a)%Z) :
  exists x_SAX : list (option string),
    fst (produce_SAX_data seed standard_normal ppf (inject_Z (Z.of_nat f)) a g)
    = Ok (fst (fst (make_timeseries seed standard_normal g)), x_SAX, 100%nat)
    /\ length x_SAX = ceil_div 100 f.
Proof.
  rewrite produce_SAX_data_order. cbv zeta.
  set (x := fst (fst (make_timeseries seed standard_normal g))).
  assert (L : length x = 100%nat)
    by apply (make_timeseries_length _ _ _ standard_normal_length).
  rewrite reduce_PAA_windows by lia. rewrite L. cbn [bind].
  rewrite transform_to_SAX_cut_values by assumption. cbn [bind].
  eexists. split; [reflexivity|].
  unfold normalize, values. rewrite !length_map, length_seq. reflexivity.
Qed.

Lemma produce_SAX_data_state (f : Q) (a : Z) (g : rng) :
  snd (produce_SAX_data seed standard_normal ppf f a g)
  = snd (standard_normal 100 (seed 12345)).
Proof. unfold produce_SAX_data. rewrite make_timeseries_eq. reflexivity. Qed.

Lemma reads_integer_int (v : pyfloat) (n : nat) :
  reads_integer v n ->
  exists k : Z, (1 <= k <= Z.of_nat n)%Z /\ py_int v = Ok k.
Proof.
  intros [q [k [-> [Hk Hq]]]]. exists k. split; [exact Hk|].
  simpl. rewrite (int_of_integer q k Hq). reflexivity.
Qed.

(** A run of [show_hist] on two fields that read as integers of [1, 100]. *)
Lemma show_hist_valid (f a : pyfloat) (g : rng) :
  reads_integer f 100 -> reads_integer a 100 ->
  exists (x_SAX : list (option string)) (kf : Z),
    show_hist seed standard_normal ppf (Some f) (Some a) g
    = (Drawn x_SAX, snd (make_timeseries seed standard_normal g))
    /\ py_int f = Ok kf
    /\ length x_SAX = ceil_div 100 (Z.to_nat kf).
Proof.
  intros Vf Va.
  destruct (reads_integer_int f 100 Vf) as [kf [Hkf If]].
  destruct (reads_integer_int a 100 Va) as [ka [Hka Ia]].
  set (gs := snd (standard_normal 100 (seed 12345))).
  destruct (produce_SAX_data_valid (Z.to_nat kf) ka gs ltac:(lia) ltac:(lia))
    as [x_SAX [E L]].
  rewrite Z2Nat.id in E by lia.
  exists x_SAX, kf. split; [|split; [exact If | exact L]].
  unfold show_hist. rewrite make_timeseries_eq. fold gs. cbn [snd].
  destruct (out_of_range_cases f 100) as [[Nf _]|[[_ [_ Ef]]|[_ [Wf _]]]];
    [destruct Vf as [q [k [C _]]]; rewrite Nf in C; discriminate C | | contradiction].
  destruct (out_of_range_cases a 100) as [[Na _]|[[_ [_ Ea]]|[_ [Wa _]]]];
    [destruct Va as [q [k [C _]]]; rewrite Na in C; discriminate C | | contradiction].
  rewrite Ef, Ea, If, Ia.
  rewrite (surjective_pairing (produce_SAX_data seed standard_normal ppf (inject_Z kf) ka gs)).
  rewrite E, produce_SAX_data_state. reflexivity.
Qed.

(** The outcome of [show_hist], case by case. *)
Lemma show_hist_shape (edit_f edit_a : option pyfloat) (g : rng) :
  (fields_valid edit_f edit_a
   /\ exists x_SAX q,
        fst (show_hist seed standard_normal ppf edit_f edit_a g) = Drawn x_SAX
        /\ edit_f = Some (finite q)
        /\ length x_SAX = ceil_div 100 (Z.to_nat (int_of q)))
  \/ (fields_nan edit_f edit_a
      /\ fst (show_hist seed standard_normal ppf edit_f edit_a g)
         = Uncaught (ValueError "cannot convert float NaN to integer"))
  \/ (~ fields_valid edit_f edit_a /\ ~ fields_nan edit_f edit_a
      /\ exists popup,
           fst (show_hist seed standard_normal ppf edit_f edit_a g) = Break popup).
Proof.
  assert (NoNan : forall v n, reads_integer v n -> v <> nan).
  { intros v n [q [k [-> _]]]. discriminate. }
  destruct edit_f as [f|].
  2:{ right. right. split; [|split].
      - intros [f [a [C _]]]. discriminate C.
      - intros [C|[f [C _]]]; discriminate C.
      - unfold show_hist. rewrite make_timeseries_eq. eexists. reflexivity. }
  destruct (out_of_range_cases f 100) as [[Nf Ef]|[[Nf [Vf Ef]]|[Nf [Vf Ef]]]].
  - right. left. split; [left; rewrite Nf; reflexivity|].
    unfold show_hist. rewrite make_timeseries_eq, Ef. reflexivity.
  - destruct edit_a as [a|].
    2:{ right. right. split; [|split].
        - intros [f' [a [_ [C _]]]]. discriminate C.
        - intros [C|[f' [_ [_ C]]]]; [injection C as C; contradiction | discriminate C].
        - unfold show_hist. rewrite make_timeseries_eq, Ef. eexists. reflexivity. }
    destruct (out_of_range_cases a 100) as [[Na Ea]|[[Na [Va Ea]]|[Na [Va Ea]]]].
    + right. left. split.
      * right. exists f. rewrite Na. repeat split. exact Vf.
      * unfold show_hist. rewrite make_timeseries_eq, Ef, Ea. reflexivity.
    + left. split; [exists f, a; repeat split; assumption|].
      destruct (show_hist_valid f a g Vf Va) as [x_SAX [kf [E [If L]]]].
      destruct Vf as [q [k [-> [Hk Hq]]]].
      exists x_SAX, q. rewrite E. split; [reflexivity|]. split; [reflexivity|].
      simpl in If. injection If as <-. exact L.
    + right. right. split; [|split].
      * intros [f' [a' [_ [C [_ Wa]]]]]. injection C as <-. contradiction.
      * intros [C|[f' [_ [_ C]]]]; injection C as C; contradiction.
      * unfold show_hist. rewrite make_timeseries_eq, Ef, Ea. eexists. reflexivity.
  - right. right. split; [|split].
    + intros [f' [a' [C [_ [Wf _]]]]]. injection C as <-. contradiction.
    + intros [C|[f' [C [Wf _]]]]; injection C as C; [contradiction|].
      subst f'. contradiction.
    + unfold show_hist. rewrite make_timeseries_eq, Ef. eexists. reflexivity.
Qed.

(** X16.  [show_hist] draws a histogram exactly when both text fields read
    as integers of [1, 100], and the histogram then has ceil(100 / f)
    entries.  An exception escapes from it exactly when a field that reads
    as NaN is reached by the checks (the frame size field, or the alphabet
    size field behind a valid frame size): it is the ValueError of
    [int(nan)].  In every other case it ends with an error popup. *)
Theorem show_hist_outcome (edit_f edit_a : option pyfloat) (g : rng) :
  ((exists x_SAX, fst (show_hist seed standard_normal ppf edit_f edit_a g) = Drawn x_SAX)
   <-> fields_valid edit_f edit_a)
  /\ (forall x_SAX,
        fst (show_hist seed standard_normal ppf edit_f edit_a g) = Drawn x_SAX ->
        exists q, edit_f = Some (finite q)
                  /\ length x_SAX = ceil_div 100 (Z.to_nat (int_of q)))
  /\ (forall e,
        fst (show_hist seed standard_normal ppf edit_f edit_a g) = Uncaught e
        <-> fields_nan edit_f edit_a
            /\ e = ValueError "cannot convert float NaN to integer")
  /\ ((exists popup, fst (show_hist seed standard_normal ppf edit_f edit_a g) = Break popup)
      <-> ~ fields_valid edit_f edit_a /\ ~ fields_nan edit_f edit_a).
Proof.
  assert (Excl : fields_valid edit_f edit_a -> fields_nan edit_f edit_a -> False).
  { intros [f [a [-> [-> [[q [k [E _]]] [q' [k' [E' _]]]]]]]] [C|[f' [_ [_ C]]]].
    - injection C as C. rewrite C in E. discriminate E.
    - injection C as C. rewrite C in E'. discriminate E'. }
  destruct (show_hist_shape edit_f edit_a g)
    as [[V [x_SAX [q [E [Ef L]]]]]|[[N E]|[NV [NN [popup E]]]]]; rewrite E.
  - split; [|split; [|split]].
    + split; [intros _; exact V | intros _; exists x_SAX; reflexivity].
    + intros y H. injection H as <-. exists q. split; assumption.
    + intros e. split; [discriminate | intros [N _]; exfalso; exact (Excl V N)].
    + split; [intros [p H]; discriminate H | intros [NV _]; contradiction].
  - split; [|split; [|split]].
    + split; [intros [y H]; discriminate H | intros V; exfalso; exact (Excl V N)].
    + intros y H. discriminate H.
    + intros e. split.
      * intros H. injection H as <-. split; [exact N | reflexivity].
      * intros [_ ->]. reflexivity.
    + split; [intros [p H]; discriminate H | intros [_ NN]; contradiction].
  - split; [|split; [|split]].
    + split; [intros [y H]; discriminate H | intros V; contradiction].
    + intros y H. discriminate H.
    + intros e. split; [discriminate | intros [N _]; contradiction].
    + split; [intros _; split; assumption | intros _; exists popup; reflexivity].
Qed.

Lemma packed_after_app (shown : list canvas) (c1 c2 : list call) :
  packed_after shown (c1 ++ c2) = packed_after (packed_after shown c1) c2.
Proof.
  revert shown. induction c1 as [|c c1 IH]; intros shown; [reflexivity|].
  destruct c; simpl; apply IH.
Qed.

Lemma displays_app (c1 c2 : list call) :
  displays (c1 ++ c2) = (displays c1 + displays c2)%nat.
Proof. unfold displays. rewrite filter_app, length_app. reflexivity. Qed.

Lemma odd_canvases_keep (k : nat) :
  remove Nat.eq_dec (2 * k)%nat (map (fun j => 2 * j + 1)%nat (seq 0 k))
  = map (fun j => 2 * j + 1)%nat (seq 0 k).
Proof.
  apply notin_remove. intros I. apply in_map_iff in I.
  destruct I as [j [E _]]. lia.
Qed.

(** What one call of [make_figure] does to the canvases, at the [n]-th
    display. *)
Lemma make_figure_display (fig : figure) (n : nat) :
  snd (make_figure fig (2 * n)%nat (held n)) = ((2 * S n)%nat, held (S n))
  /\ displays (fst (make_figure fig (2 * n)%nat (held n))) = 1%nat
  /\ packed_after (left_packed n) (fst (make_figure fig (2 * n)%nat (held n)))
     = left_packed (S n).
Proof.
  destruct n as [|k].
  - repeat split.
  - split; [|split].
    + unfold make_figure, held. cbn [draw_figure snd fst]. f_equal. lia.
    + reflexivity.
    + unfold make_figure, held, delete_fig_agg, draw_figure. cbn [fst app].
      cbn [packed_after]. unfold left_packed.
      rewrite remove_app, odd_canvases_keep.
      assert (R : remove Nat.eq_dec (2 * k)%nat [(2 * k)%nat; (2 * k + 1)%nat]
                  = [(2 * k + 1)%nat]).
      { cbn [remove].
        destruct (Nat.eq_dec (2 * k)%nat (2 * k)%nat) as [_|N]; [|congruence].
        destruct (Nat.eq_dec (2 * k)%nat (2 * k + 1)%nat) as [C|_]; [lia | reflexivity]. }
      rewrite R, seq_S, map_app. cbn [map Nat.add].
      rewrite <- !app_assoc. cbn [app].
      replace (S (2 * S k)) with (2 * S k + 1)%nat by lia. reflexivity.
Qed.

(** One turn goes on with a figure displayed, lets an exception escape, or
    leaves the loop, according to its event. *)
Lemma loop_turn_cases (ev : event) (g : rng) (n : nat) :
  (goes_on ev
   /\ exists calls g',
        loop_turn seed standard_normal ppf ev (g, ((2 * n)%nat, held n))
        = (calls, Continue (g', ((2 * S n)%nat, held (S n))))
        /\ displays calls = 1%nat
        /\ packed_after (left_packed n) calls = left_packed (S n))
  \/ (raises ev
      /\ loop_turn seed standard_normal ppf ev (g, ((2 * n)%nat, held n))
         = ([], Raised (ValueError "cannot convert float NaN to integer")))
  \/ (leaves ev
      /\ exists calls,
           loop_turn seed standard_normal ppf ev (g, ((2 * n)%nat, held n))
           = (calls, Leave)
           /\ displays calls = 0%nat
           /\ packed_after (left_packed n) calls = left_packed n).
Proof.
  assert (Show : forall fig g',
            exists calls,
              (let (calls, objects) := make_figure fig (2 * n)%nat (held n) in
               (calls, Continue (g', objects)))
              = (calls, @Continue (loop_state rng) (g', ((2 * S n)%nat, held (S n))))
              /\ displays calls = 1%nat
              /\ packed_after (left_packed n) calls = left_packed (S n)).
  { intros fig g'. destruct (make_figure_display fig n) as [E [D P]].
    rewrite (surjective_pairing (make_figure fig (2 * n)%nat (held n))), E.
    eexists. split; [reflexivity|]. split; assumption. }
  destruct ev as [| | |edit_f edit_a].
  - right. right. split; [split; intros []|]. exists []. repeat split.
  - right. right. split; [split; intros []|]. exists []. repeat split.
  - left. split; [exact I|].
    unfold loop_turn. rewrite make_timeseries_eq.
    set (x := lfilter _ _ _). set (g1 := snd _).
    destruct (Show (lineplot x) g1) as [calls [E [D P]]].
    exists calls, g1. split; [exact E | split; assumption].
  - unfold loop_turn.
    pose proof (show_hist_shape edit_f edit_a g) as Shape.
    destruct (show_hist seed standard_normal ppf edit_f edit_a g) as [o g1].
    cbn [fst] in Shape.
    destruct Shape as [[V [x_SAX [q [-> _]]]]|[[N ->]|[NV [NN [popup ->]]]]].
    + left. split; [exact V|].
      destruct (Show (histplot x_SAX) g1) as [calls [E [D P]]].
      exists calls, g1. split; [exact E | split; assumption].
    + right. left. split; [exact N | reflexivity].
    + right. right. split; [split; assumption|].
      eexists. repeat split.
Qed.



(** X18.  From the start of the program and after any sequence of events:
    the canvases that are packed and have not been forgotten are the second
    canvas that [make_figure] makes at every display (which no call ever
    forgets) and the first canvas of the last display; the first canvas of
    every earlier display has been forgotten by [delete_fig_agg].  While
    the loop goes on, [fig_agg] holds the first canvas of the last
    display. *)
Theorem main_canvases (evs : list event) (g : rng) :
  packed_after [] (fst (main seed standard_normal ppf evs g))
  = left_packed (displays (fst (main seed standard_normal ppf evs g)))
  /\ forall g' next fig_agg,
       snd (main seed standard_normal ppf evs g) = inl (g', (next, fig_agg)) ->
       next = (2 * displays (fst (main seed standard_normal ppf evs g)))%nat
       /\ fig_agg = held (displays (fst (main seed standard_normal ppf evs g))).
Proof.
  unfold main.
  assert (G : forall evs g n,
            packed_after (left_packed n)
              (fst (event_loop seed standard_normal ppf evs (g, ((2 * n)%nat, held n))))
            = left_packed
                (n + displays
                       (fst (event_loop seed standard_normal ppf evs
                               (g, ((2 * n)%nat, held n)))))
            /\ forall g' next fig_agg,
                 snd (event_loop seed standard_normal ppf evs (g, ((2 * n)%nat, held n)))
                 = inl (g', (next, fig_agg)) ->
                 next = (2 * (n + displays
                                    (fst (event_loop seed standard_normal ppf evs
                                            (g, ((2 * n)%nat, held n))))))%nat
                 /\ fig_agg
                    = held (n + displays
                                  (fst (event_loop seed standard_normal ppf evs
                                          (g, ((2 * n)%nat, held n)))))).
  { clear evs g. induction evs as [|ev evs IH]; intros g n.
    - cbn [event_loop fst snd]. change (displays []) with 0%nat.
      rewrite Nat.add_0_r. split; [reflexivity|].
      intros g' next fig_agg H. injection H as _ <- <-. split; reflexivity.
    - cbn [event_loop].
      destruct (loop_turn_cases ev g n)
        as [[_ [calls [g' [E [D P]]]]]|[[_ E]|[_ [calls [E [D P]]]]]]; rewrite E.
      + specialize (IH g' (S n)).
        destruct (event_loop seed standard_normal ppf evs (g', ((2 * S n)%nat, held (S n))))
          as [calls' r].
        cbn [fst snd] in *. rewrite packed_after_app, displays_app, P, D.
        replace (n + (1 + displays calls'))%nat with (S n + displays calls')%nat by lia.
        exact IH.
      + cbn [fst snd]. change (displays []) with 0%nat. rewrite Nat.add_0_r.
        split; [reflexivity | discriminate].
      + cbn [fst snd]. rewrite packed_after_app, displays_app, P, D.
        change (displays [window_close]) with 0%nat. rewrite !Nat.add_0_r.
        split; [reflexivity | discriminate]. }
  exact (G evs g 0%nat).
Qed.

End Runs.

(** ** normalize on a constant series, in double precision *)

Section ConstantSeries.

Lemma f64_sub_diag (v : f64) : zero_or_nan (f64_sub v v).
Proof.
  destruct v as [s|s| |s m e]; try destruct s; try exact I.
  - unfold f64_sub, SFsub. rewrite Z.sub_diag. exact I.
  - unfold f64_sub, SFsub. rewrite Z.sub_diag. exact I.
Qed.

Lemma f64_add_zeros (u v : f64) :
  zero_or_nan u -> zero_or_nan v -> zero_or_nan (f64_add u v).
Proof.
  destruct u as [s|s| |s m e], v as [t|t| |t m' e']; try contradiction;
    intros _ _; try exact I.
  destruct s, t; exact I.
Qed.

Lemma f64_mul_zeros (u v : f64) :
  zero_or_nan u -> zero_or_nan v -> zero_or_nan (f64_mul u v).
Proof.
  destruct u as [s|s| |s m e], v as [t|t| |t m' e']; try contradiction;
    intros _ _; exact I.
Qed.

(** A zero or NaN divided by anything is a zero or NaN. *)
Lemma f64_div_zero_left (u d : f64) : zero_or_nan u -> zero_or_nan (f64_div u d).
Proof.
  destruct u as [s|s| |s m e], d as [t|t| |t m' e']; try contradiction;
    intros _; exact I.
Qed.

Lemma f64_sqrt_zeros (u : f64) : zero_or_nan u -> zero_or_nan (f64_sqrt u).
Proof. destruct u as [s|s| |s m e]; try contradiction; intros _; exact I. Qed.

(** 0/0, and every quotient with a NaN in it, is NaN. *)
Lemma f64_div_zeros (u v : f64) :
  zero_or_nan u -> zero_or_nan v -> f64_div u v = S754_nan.
Proof.
  destruct u as [s|s| |s m e], v as [t|t| |t m' e']; try contradiction;
    intros _ _; reflexivity.
Qed.

Lemma sequential_sum_zeros : sums_zeros sequential_sum.
Proof.
  unfold sums_zeros, sequential_sum.
  assert (G : forall l acc, zero_or_nan acc -> Forall zero_or_nan l ->
                            zero_or_nan (fold_left f64_add l acc)).
  { induction l as [|v l IH]; intros acc Hacc Hl; [exact Hacc|].
    inversion Hl; subst. cbn [fold_left]. apply IH; [|assumption].
    apply f64_add_zeros; assumption. }
  intros l Hl. apply G; [exact I | exact Hl].
Qed.

Variable fsum : list f64 -> f64.
Hypothesis fsum_zeros : sums_zeros fsum.

(** The deviation of a series whose values all equal its computed mean is
    a zero or NaN. *)
Lemma series_std64_at_mean (x : list f64) :
  (forall v, In v x -> v = S754_nan \/ v = series_mean64 fsum x) ->
  zero_or_nan (series_std64 fsum x).
Proof.
  intros H. unfold series_std64.
  destruct (count_valid x <=? 1)%nat eqn:C; [exact I|].
  apply Nat.leb_gt in C.
  apply f64_sqrt_zeros, f64_div_zero_left, fsum_zeros.
  apply Forall_forall. intros z Hz. apply in_map_iff in Hz.
  destruct Hz as [v [<- Hv]].
  destruct (H v Hv) as [->|E]; [exact I|].
  destruct (f64_is_nan v); [exact I|].
  unfold series_mean64 in E.
  destruct (count_valid x =? 0)%nat eqn:C0; [apply Nat.eqb_eq in C0; lia|].
  rewrite <- E.
  apply f64_mul_zeros; apply f64_sub_diag.
Qed.

(** C9, as the program has it.  [normalize] raises nothing and returns a
    series of the length of its input.  When every value of the series that
    is not NaN equals the mean as it is computed in double precision (so
    for a constant series whose mean is computed exactly, such as
    [1.0, 1.0, 1.0]), the deviation is 0 or NaN and every element of the
    result is NaN, whatever the order in which the library adds. *)
Theorem normalize64_at_mean (x : list f64)
  (H : forall v, In v x -> v = S754_nan \/ v = series_mean64 fsum x) :
  normalize64 fsum x = repeat S754_nan (length x).
Proof.
  pose proof (series_std64_at_mean x H) as Hsd.
  unfold normalize64.
  assert (G : forall l, (forall v, In v l -> In v x) ->
            map (fun v => f64_div (f64_sub v (series_mean64 fsum x))
                                  (series_std64 fsum x)) l
            = repeat S754_nan (length l)).
  { induction l as [|v l IH]; intros Hl; [reflexivity|].
    cbn [map length repeat]. f_equal.
    - apply f64_div_zeros; [|exact Hsd].
      destruct (H v (Hl v (or_introl eq_refl))) as [->|E]; [exact I|].
      rewrite <- E. apply f64_sub_diag.
    - apply IH. intros w Hw. apply Hl. right. exact Hw. }
  apply G. intros v Hv. exact Hv.
Qed.

End ConstantSeries.

(** ** The further properties on the small instance *)

Section InstanceRuns.

Lemma transform_to_SAX_special_witness :
  transform_to_SAX Example.ppf [NaN; NInf; PInf] 5
  = Ok [None; None; Some (symbol 4)].
Proof.
  apply (transform_to_SAX_special Example.ppf example_ppf_increasing 5). lia.
Defined.

Lemma transform_to_SAX_raises_iff_witness :
  (transform_to_SAX Example.ppf [Fin 0] 0
   = Raise (ValueError "Bin labels must be one fewer than the number of bin edges")
   <-> (0 <= 0)%Z
       /\ ValueError "Bin labels must be one fewer than the number of bin edges"
          = ValueError "Bin labels must be one fewer than the number of bin edges")
  /\ ((exists out, transform_to_SAX Example.ppf [Fin 0] 0 = Ok out
                   /\ length out = length [Fin 0])
      <-> (1 <= 0)%Z).
Proof.
  exact (transform_to_SAX_raises_iff Example.ppf example_ppf_increasing [Fin 0] 0
           (ValueError "Bin labels must be one fewer than the number of bin edges")).
Defined.

Lemma example_two_bins_low :
  transform_to_SAX Example.ppf [Fin (-1)] 2 = Ok [Some (symbol 0)].
Proof.
  apply (transform_to_SAX_interval_iff Example.ppf example_ppf_increasing 2 (-1) 0);
    [lia | simpl; lia |].
  unfold edge, bin_edges, breakpoints, breakpoints_0_to_1, range, Example.ppf.
  simpl. split; [exact I | lra].
Qed.

Lemma example_two_bins_high :
  transform_to_SAX Example.ppf [Fin 1] 2 = Ok [Some (symbol 1)].
Proof.
  apply (transform_to_SAX_interval_iff Example.ppf example_ppf_increasing 2 1 1);
    [lia | simpl; lia |].
  unfold edge, bin_edges, breakpoints, breakpoints_0_to_1, range, Example.ppf.
  simpl. split; [lra | tauto].
Qed.

Lemma transform_to_SAX_monotone_witness : (0 <= 1)%nat.
Proof.
  apply (transform_to_SAX_monotone Example.ppf example_ppf_increasing 2 (-1) 1 0 1).
  - lia.
  - lra.
  - exact example_two_bins_low.
  - exact example_two_bins_high.
Defined.

Lemma produce_SAX_data_valid_witness :
  exists x_SAX : list (option string),
    fst (produce_SAX_data Example.seed Example.standard_normal Example.ppf
           (inject_Z (Z.of_nat 7)) 3 O)
    = Ok (fst (fst (make_timeseries Example.seed Example.standard_normal O)),
          x_SAX, 100%nat)
    /\ length x_SAX = ceil_div 100 7.
Proof.
  apply (produce_SAX_data_valid Example.rng Example.seed Example.standard_normal
           Example.ppf example_standard_normal_length example_ppf_increasing 7 3 O);
    lia.
Defined.

Lemma show_hist_outcome_witness :
  ((exists x_SAX,
      fst (show_hist Example.seed Example.standard_normal Example.ppf
             (Some (finite 4)) (Some (finite 5)) O) = Drawn x_SAX)
   <-> fields_valid (Some (finite 4)) (Some (finite 5)))
  /\ (forall x_SAX,
        fst (show_hist Example.seed Example.standard_normal Example.ppf
               (Some (finite 4)) (Some (finite 5)) O) = Drawn x_SAX ->
        exists q, Some (finite 4) = Some (finite q)
                  /\ length x_SAX = ceil_div 100 (Z.to_nat (int_of q)))
  /\ (forall e,
        fst (show_hist Example.seed Example.standard_normal Example.ppf
               (Some (finite 4)) (Some (finite 5)) O) = Uncaught e
        <-> fields_nan (Some (finite 4)) (Some (finite 5))
            /\ e = ValueError "cannot convert float NaN to integer")
  /\ ((exists popup,
         fst (show_hist Example.seed Example.standard_normal Example.ppf
                (Some (finite 4)) (Some (finite 5)) O) = Break popup)
      <-> ~ fields_valid (Some (finite 4)) (Some (finite 5))
          /\ ~ fields_nan (Some (finite 4)) (Some (finite 5))).
Proof.
  exact (show_hist_outcome Example.rng Example.seed Example.standard_normal
           Example.ppf example_standard_normal_length example_ppf_increasing
           (Some (finite 4)) (Some (finite 5)) O).
Defined.


Lemma main_canvases_witness :
  packed_after []
    (fst (main Example.seed Example.standard_normal Example.ppf
            [show_time_event; show_hist_event (Some (finite 4)) (Some (finite 5));
             show_time_event] O))
  = left_packed
      (displays
         (fst (main Example.seed Example.standard_normal Example.ppf
                 [show_time_event; show_hist_event (Some (finite 4)) (Some (finite 5));
                  show_time_event] O)))
  /\ forall g' next fig_agg,
       snd (main Example.seed Example.standard_normal Example.ppf
              [show_time_event; show_hist_event (Some (finite 4)) (Some (finite 5));
               show_time_event] O) = inl (g', (next, fig_agg)) ->
       next = (2 * displays
                     (fst (main Example.seed Example.standard_normal Example.ppf
                             [show_time_event;
                              show_hist_event (Some (finite 4)) (Some (finite 5));
                              show_time_event] O)))%nat
       /\ fig_agg
          = held (displays
                    (fst (main Example.seed Example.standard_normal Example.ppf
                            [show_time_event;
                             show_hist_event (Some (finite 4)) (Some (finite 5));
                             show_time_event] O))).
Proof.
  exact (main_canvases Example.rng Example.seed Example.standard_normal Example.ppf
           example_standard_normal_length example_ppf_increasing
           [show_time_event; show_hist_event (Some (finite 4)) (Some (finite 5));
            show_time_event] O).
Defined.

(** C9 fails on constant series whose mean is not computed exactly.  The
    series [0.1, 0.1, 0.1] is constant, yet its mean is computed as
    0.10000000000000002, its deviation as 1.7e-17, and its scores are
    finite: about -0.8165 each.  Scaled by 2^-600 the squares of the
    deviations from the mean underflow: the deviation is computed as 0 and
    every score is minus infinity. *)
Lemma normalize64_constant_not_nan :
  series_mean64 sequential_sum [f64_tenth; f64_tenth; f64_tenth]
  = S754_finite false 7205759403792795 (-56)
  /\ series_std64 sequential_sum [f64_tenth; f64_tenth; f64_tenth]
     = S754_finite false 5515760546423086 (-108)
  /\ normalize64 sequential_sum [f64_tenth; f64_tenth; f64_tenth]
     = [S754_finite true 7354347395230783 (-53);
        S754_finite true 7354347395230783 (-53);
        S754_finite true 7354347395230783 (-53)]
  /\ series_std64 sequential_sum [f64_tenth_small; f64_tenth_small; f64_tenth_small]
     = S754_zero false
  /\ normalize64 sequential_sum [f64_tenth_small; f64_tenth_small; f64_tenth_small]
     = [S754_infinity true; S754_infinity true; S754_infinity true].
Proof. vm_compute. repeat split. Qed.

Lemma normalize64_at_mean_witness :
  normalize64 sequential_sum [f64_one; f64_one; f64_one]
  = repeat S754_nan (length [f64_one; f64_one; f64_one]).
Proof.
  apply (normalize64_at_mean sequential_sum sequential_sum_zeros
           [f64_one; f64_one; f64_one]).
  intros v [<-|[<-|[<-|[]]]]; right; vm_compute; reflexivity.
Defined.

End InstanceRuns.
